(** * Loop route selection of the running-course generator

    A shallow embedding of [src/services/mapService.ts] (with the constants
    of [src/constants.ts] and the caller [handleGenerateCourse] of the
    application component) and the properties of its route selection.

    Number model.  The embedding has two layers.

    - The control flow of the service (which queries are issued, which
      candidates are surfaced, what is logged, thrown or returned) is
      embedded with exact rationals ([Q]) for the numbers it passes along.
      The properties stated on this layer do not depend on how an
      arithmetic result is rounded.

    - The arithmetic that decides a result (the elevation gain, the
      tolerance band, the two sort comparators) is embedded in module
      [Binary64] over primitive binary64 floats, as JavaScript computes
      it.  Every property about a computed gain, about membership of the
      band, or about the order of candidates is stated on this layer.

    Array lengths and sample counts are [nat]. *)

From Stdlib Require Import Arith ZArith QArith Qabs Qminmax Qround Lqa Lia List
  String Bool Permutation Sorted.
From Stdlib Require Import Ascii Floats.

Set Warnings "-inexact-float".
Import ListNotations.

Local Open Scope Q_scope.

(** ** Constants ([src/constants.ts]) *)

Definition NUM_INTERMEDIATE_POINT_CANDIDATES : nat := 8.
Definition INTERMEDIATE_POINT_RADIUS_FACTOR : Q := 0.4.
Definition DISTANCE_TOLERANCE_FACTOR : Q := 0.25.
Definition ELEVATION_SAMPLES : nat := 128.

(** ** The provider's data ([google.maps] declarations used by the code) *)

Record LatLng := { lat : Q; lng : Q }.

Record Distance := { text : string; value : Q }.

(** [distance] is optional in [google.maps.DirectionsLeg]. *)
Record DirectionsLeg := { distance : option Distance }.

Record DirectionsRoute := {
  legs : list DirectionsLeg;
  overview_path : list LatLng
}.

Record DirectionsResult := { routes : list DirectionsRoute }.

Inductive DirectionsStatus :=
| DS_INVALID_REQUEST | DS_MAX_WAYPOINTS_EXCEEDED | DS_NOT_FOUND | DS_OK
| DS_OVER_QUERY_LIMIT | DS_REQUEST_DENIED | DS_UNKNOWN_ERROR | DS_ZERO_RESULTS.

Inductive ElevationStatus :=
| ES_INVALID_REQUEST | ES_OK | ES_OVER_QUERY_LIMIT | ES_REQUEST_DENIED
| ES_UNKNOWN_ERROR.

Record ElevationResult := { elevation : Q; resolution : Q }.

Inductive TravelMode := BICYCLING | DRIVING | TRANSIT | WALKING.

Record DirectionsWaypoint := { location : LatLng; stopover : bool }.

Record DirectionsRequest := {
  origin : LatLng;
  destination : LatLng;
  waypoints : list DirectionsWaypoint;
  travelMode : TravelMode;
  provideRouteAlternatives : bool
}.

Record PathElevationRequest := { path : list LatLng; samples : nat }.

Definition DirectionsStatus_eqb (a b : DirectionsStatus) : bool :=
  match a, b with
  | DS_INVALID_REQUEST, DS_INVALID_REQUEST
  | DS_MAX_WAYPOINTS_EXCEEDED, DS_MAX_WAYPOINTS_EXCEEDED
  | DS_NOT_FOUND, DS_NOT_FOUND
  | DS_OK, DS_OK
  | DS_OVER_QUERY_LIMIT, DS_OVER_QUERY_LIMIT
  | DS_REQUEST_DENIED, DS_REQUEST_DENIED
  | DS_UNKNOWN_ERROR, DS_UNKNOWN_ERROR
  | DS_ZERO_RESULTS, DS_ZERO_RESULTS => true
  | _, _ => false
  end.

Definition ElevationStatus_eqb (a b : ElevationStatus) : bool :=
  match a, b with
  | ES_INVALID_REQUEST, ES_INVALID_REQUEST
  | ES_OK, ES_OK
  | ES_OVER_QUERY_LIMIT, ES_OVER_QUERY_LIMIT
  | ES_REQUEST_DENIED, ES_REQUEST_DENIED
  | ES_UNKNOWN_ERROR, ES_UNKNOWN_ERROR => true
  | _, _ => false
  end.

(** The string a status shows in a template literal. *)
Definition DirectionsStatus_str (s : DirectionsStatus) : string :=
  match s with
  | DS_INVALID_REQUEST => "INVALID_REQUEST"
  | DS_MAX_WAYPOINTS_EXCEEDED => "MAX_WAYPOINTS_EXCEEDED"
  | DS_NOT_FOUND => "NOT_FOUND"
  | DS_OK => "OK"
  | DS_OVER_QUERY_LIMIT => "OVER_QUERY_LIMIT"
  | DS_REQUEST_DENIED => "REQUEST_DENIED"
  | DS_UNKNOWN_ERROR => "UNKNOWN_ERROR"
  | DS_ZERO_RESULTS => "ZERO_RESULTS"
  end.

Definition ElevationStatus_str (s : ElevationStatus) : string :=
  match s with
  | ES_INVALID_REQUEST => "INVALID_REQUEST"
  | ES_OK => "OK"
  | ES_OVER_QUERY_LIMIT => "OVER_QUERY_LIMIT"
  | ES_REQUEST_DENIED => "REQUEST_DENIED"
  | ES_UNKNOWN_ERROR => "UNKNOWN_ERROR"
  end.

(** ** Result of the service ([src/types.ts]) *)

Record OptimalRouteData := {
  route : DirectionsResult;
  distanceKm : Q;
  elevationGainM : Q
}.

(** ** JavaScript idioms *)

(** [x > 0] on numbers. *)
Definition Qgtb0 (x : Q) : bool :=
  if Qlt_le_dec 0 x then true else false.

(** [v || 0] where [v] is a number or [undefined]: every falsy value
    ([undefined], [0]) gives [0]. *)
Definition or_zero (v : option Q) : Q :=
  match v with
  | Some x => if Qeq_bool x 0 then 0 else x
  | None => 0
  end.

(** [leg.distance?.value] *)
Definition distance_value (leg : DirectionsLeg) : option Q :=
  match distance leg with
  | Some dv => Some (value dv)
  | None => None
  end.

(** A computation that may raise a [TypeError] (reading a property of
    [undefined]): [None] is the exception. *)
Definition bind {A B : Type} (m : option A) (k : A -> option B) : option B :=
  match m with
  | Some a => k a
  | None => None
  end.

Notation "x <- m ;; k" := (bind m (fun x => k))
  (at level 61, m at next level, right associativity).

(** [for (let i = lo; i < hi; i++) s = body(i, s)]; the first argument
    counts the iterations that remain. *)
Fixpoint for_loop {S : Type} (n : nat) (i : nat)
    (body : nat -> S -> S) (s : S) : S :=
  match n with
  | O => s
  | Datatypes.S n' => for_loop n' (Datatypes.S i) body (body i s)
  end.

Definition for_range {S : Type} (lo hi : nat)
    (body : nat -> S -> S) (s : S) : S :=
  for_loop (hi - lo) lo body s.

(** ** [calculateCumulativeElevation] (mapService.ts, lines 18-27) *)

(** The body of the loop: [elevations[i]] of an index out of range is
    [undefined], whose [.elevation] raises. *)
Definition elevation_step (elevations : list ElevationResult)
    (i : nat) (gain : Q) : option Q :=
  cur <- nth_error elevations i ;;
  prev <- nth_error elevations (i - 1) ;;
  let diff := elevation cur - elevation prev in
  Some (if Qgtb0 diff then gain + diff else gain).

(** The loop state is the value of [gain], or [None] once an iteration has
    raised.  This version, on exact rationals, serves the properties of
    the control flow (which indices are read, whether the loop returns);
    the value computed is that of [Binary64.calculateCumulativeElevation]. *)
Definition calculateCumulativeElevation
    (elevations : list ElevationResult) : option Q :=
  for_range 1 (List.length elevations)
    (fun i acc => gain <- acc ;; elevation_step elevations i gain)
    (Some 0).

(** The sum over the consecutive pairs of [max(0, next - previous)], as the
    specification words it. *)
Fixpoint positive_delta_sum (es : list Q) : Q :=
  match es with
  | a :: (b :: _) as tl => Qmax 0 (b - a) + positive_delta_sum tl
  | _ => 0
  end.

(** ** The host environment

    The two query services answer through callbacks.  Each is modelled by
    the reply it gives to the query of the [k]-th candidate ([k] is the
    position of the candidate's promise in [candidatePromises]); every
    query is answered.  [route] may instead raise while the promise
    executor runs. *)

Inductive DirectionsReply :=
| route_callback (result : option DirectionsResult) (status : DirectionsStatus)
| route_throws.

Record ElevationReply := {
  elevationResults : option (list ElevationResult);
  elevationStatus : ElevationStatus
}.

(** [google.maps.geometry.spherical.computeOffset(from, distance, heading)] *)
Record GeometryLibrary := {
  computeOffset : LatLng -> Q -> Q -> LatLng
}.

Record MapsApi := {
  geometry : option GeometryLibrary;
  DirectionsService_route : nat -> DirectionsRequest -> DirectionsReply;
  ElevationService_getElevationForPath :
    nat -> PathElevationRequest -> ElevationReply
}.

Record GoogleNamespace := { maps : option MapsApi }.

Record Window := { google : option GoogleNamespace }.

(** What the code does to the outside: the queries it issues and the lines
    it logs.  The events of one candidate are kept together; the
    interleaving between candidates is not modelled. *)
Inductive Event :=
| DirectionsQuery (req : DirectionsRequest)
| ElevationQuery (req : PathElevationRequest)
| ConsoleWarn (msg : string)
| ConsoleError (msg : string).

(** A promise, by the state it ends in. *)
Inductive Promise (A : Type) :=
| fulfilled (v : A)
| rejected
| pending.
Arguments fulfilled {A} v.
Arguments rejected {A}.
Arguments pending {A}.

Inductive PromiseSettledResult (A : Type) :=
| PromiseFulfilledResult (v : A)
| PromiseRejectedResult.
Arguments PromiseFulfilledResult {A} v.
Arguments PromiseRejectedResult {A}.

(** [Promise.allSettled]: settles, in the order of its input, once every
    promise has; [None] when one stays pending. *)
Fixpoint Promise_allSettled {A : Type} (ps : list (Promise A))
    : option (list (PromiseSettledResult A)) :=
  match ps with
  | [] => Some []
  | p :: ps' =>
      match p, Promise_allSettled ps' with
      | fulfilled v, Some rs => Some (PromiseFulfilledResult v :: rs)
      | rejected, Some rs => Some (PromiseRejectedResult :: rs)
      | _, _ => None
      end
  end.

(** How a call of an [async] function ends. *)
Inductive Completion (A : Type) :=
| returns (v : A)
| throws (message : string)
| never_returns.
Arguments returns {A} v.
Arguments throws {A} message.
Arguments never_returns {A}.

(** ** [calculateIntermediatePoint] (lines 6-15) *)

Definition calculateIntermediatePoint (window : Window)
    (startPoint : LatLng) (angleDegrees distanceMeters : Q)
    : option LatLng :=
  match google window with
  | Some g =>
      match maps g with
      | Some m =>
          match geometry m with
          | Some geo =>
              Some (computeOffset geo startPoint distanceMeters angleDegrees)
          | None => None
          end
      | None => None
      end
  | None => None
  end.

(** ** [Array.prototype.sort] with a comparator

    The sort is stable: [y] goes before [x] only when [compareFn x y > 0].
    Modelled as the insertion sort that inserts from the right. *)
Section Sort.
Context {A : Type} (compareFn : A -> A -> Q).

Fixpoint sort_insert (x : A) (l : list A) : list A :=
  match l with
  | [] => [x]
  | y :: l' =>
      if Qgtb0 (compareFn x y) then y :: sort_insert x l' else x :: l
  end.

Definition Array_sort (l : list A) : list A :=
  fold_right sort_insert [] l.

End Sort.

(** ** [findOptimalLoopRoute] (lines 29-146) *)

(** Line 61: [route.legs.reduce((sum, leg) => sum + (leg.distance?.value || 0), 0)] *)
Definition actualDistanceMeters_of (rt : DirectionsRoute) : Q :=
  fold_left (fun sum leg => sum + or_zero (distance_value leg)) (legs rt) 0.

(** Line 59: [status === OK && result && result.routes &&
    result.routes.length > 0], with [result.routes[0]] when it holds. *)
Definition first_route (result : option DirectionsResult)
    (status : DirectionsStatus) : option (DirectionsResult * DirectionsRoute) :=
  if DirectionsStatus_eqb status DS_OK then
    match result with
    | Some res =>
        match routes res with
        | rt :: _ => Some (res, rt)
        | [] => None
        end
    | None => None
    end
  else None.

(** Lines 76-88: the callback of the elevation query.  An exception of
    [calculateCumulativeElevation] would leave the callback before
    [resolve] is called. *)
Definition elevation_callback (result : DirectionsResult)
    (actualDistanceMeters : Q) (reply : ElevationReply)
    : Promise (option OptimalRouteData) * list Event :=
  match ElevationStatus_eqb (elevationStatus reply) ES_OK,
        elevationResults reply with
  | true, Some results =>
      match calculateCumulativeElevation results with
      | Some gain =>
          (fulfilled (Some {| route := result;
                              distanceKm := actualDistanceMeters / 1000;
                              elevationGainM := gain |}), [])
      | None => (pending, [])
      end
  | _, _ =>
      (fulfilled None,
       [ConsoleWarn (String.append "Elevation query failed for a route: "
                       (ElevationStatus_str (elevationStatus reply)))])
  end.

(** Lines 58-96: the callback of the directions query of candidate [k]. *)
Definition directions_callback (m : MapsApi) (k : nat)
    (result : option DirectionsResult) (status : DirectionsStatus)
    : Promise (option OptimalRouteData) * list Event :=
  match first_route result status with
  | Some (res, rt) =>
      let actualDistanceMeters := actualDistanceMeters_of rt in
      if Qeq_bool actualDistanceMeters 0 then (fulfilled None, [])
      else
        let pathForElevation := overview_path rt in
        if (List.length pathForElevation <? 2)%nat then (fulfilled None, [])
        else
          let req := {| path := pathForElevation;
                        samples := Nat.min ELEVATION_SAMPLES
                                     (List.length pathForElevation) |} in
          let '(p, evs) :=
            elevation_callback res actualDistanceMeters
              (ElevationService_getElevationForPath m k req) in
          (p, ElevationQuery req :: evs)
  | None =>
      (fulfilled None,
       if negb (DirectionsStatus_eqb status DS_ZERO_RESULTS)
       then [ConsoleWarn (String.append "Directions request failed: "
                            (DirectionsStatus_str status))]
       else [])
  end.

(** Lines 57-97: the promise of candidate [k]; an exception raised in the
    executor rejects it. *)
Definition candidate_promise (m : MapsApi) (k : nat)
    (request : DirectionsRequest)
    : Promise (option OptimalRouteData) * list Event :=
  match DirectionsService_route m k request with
  | route_callback result status =>
      let '(p, evs) := directions_callback m k result status in
      (p, DirectionsQuery request :: evs)
  | route_throws => (rejected, [DirectionsQuery request])
  end.

Record FanOut := {
  candidatePromises : list (Promise (option OptimalRouteData));
  events : list Event
}.

(** Line 44 *)
Definition candidate_angle (i : nat) : Q :=
  (360 / inject_Z (Z.of_nat NUM_INTERMEDIATE_POINT_CANDIDATES))
  * inject_Z (Z.of_nat i).

(** Lines 49-55 *)
Definition loop_request (startPoint intermediateGeoPoint : LatLng)
    : DirectionsRequest :=
  {| origin := startPoint;
     destination := startPoint;
     waypoints := [{| location := intermediateGeoPoint; stopover := true |}];
     travelMode := WALKING;
     provideRouteAlternatives := false |}.

(** Lines 43-99: one iteration of the loop over the candidates. *)
Definition candidate_step (window : Window) (m : MapsApi)
    (startPoint : LatLng) (intermediateDistanceMeters : Q)
    (i : nat) (st : FanOut) : FanOut :=
  let angle := candidate_angle i in
  match calculateIntermediatePoint window startPoint angle
          intermediateDistanceMeters with
  | None => st
  | Some intermediateGeoPoint =>
      let request := loop_request startPoint intermediateGeoPoint in
      let '(promise, evs) :=
        candidate_promise m (List.length (candidatePromises st)) request in
      {| candidatePromises := candidatePromises st ++ [promise];
         events := events st ++ evs |}
  end.

Definition fan_out (window : Window) (m : MapsApi)
    (startPoint : LatLng) (desiredDistanceKm : Q) : FanOut :=
  let intermediateDistanceMeters :=
    desiredDistanceKm * INTERMEDIATE_POINT_RADIUS_FACTOR * 1000 in
  for_range 0 NUM_INTERMEDIATE_POINT_CANDIDATES
    (candidate_step window m startPoint intermediateDistanceMeters)
    {| candidatePromises := []; events := [] |}.

(** Lines 102-104: the fulfilled, non-null results, in order ([filter] and
    [map] in one pass). *)
Definition validRoutes_of
    (results : list (PromiseSettledResult (option OptimalRouteData)))
    : list OptimalRouteData :=
  flat_map (fun result =>
              match result with
              | PromiseFulfilledResult (Some v) => [v]
              | _ => []
              end) results.

(** The selection on exact rationals, for the properties of the control
    flow (a candidate is returned exactly when one was collected, and it is
    one of them).  Which candidate the code returns is decided in binary64:
    see [Binary64.select_route]. *)

(** Lines 118-120 *)
Definition in_tolerance (desiredDistanceKm : Q) (r : OptimalRouteData) : bool :=
  let minDesiredKm := desiredDistanceKm * (1 - DISTANCE_TOLERANCE_FACTOR) in
  let maxDesiredKm := desiredDistanceKm * (1 + DISTANCE_TOLERANCE_FACTOR) in
  Qle_bool minDesiredKm (distanceKm r) && Qle_bool (distanceKm r) maxDesiredKm.

(** Lines 123-130 *)
Definition compare_in_tolerance (desiredDistanceKm : Q)
    (a b : OptimalRouteData) : Q :=
  if negb (Qeq_bool (elevationGainM a) (elevationGainM b))
  then elevationGainM a - elevationGainM b
  else Qabs (distanceKm a - desiredDistanceKm)
       - Qabs (distanceKm b - desiredDistanceKm).

(** Lines 134-143 *)
Definition compare_closest (desiredDistanceKm : Q)
    (a b : OptimalRouteData) : Q :=
  let distDiffA := Qabs (distanceKm a - desiredDistanceKm) in
  let distDiffB := Qabs (distanceKm b - desiredDistanceKm) in
  if negb (Qeq_bool distDiffA distDiffB)
  then distDiffA - distDiffB
  else elevationGainM a - elevationGainM b.

(** [arr[0]], guarded by [arr.length > 0]. *)
Definition first_or_null {A : Type} (l : list A) : option A :=
  match l with
  | x :: _ => Some x
  | [] => None
  end.

(** Lines 106-145: the choice among the collected candidates. *)
Definition select_route (validRoutes : list OptimalRouteData)
    (desiredDistanceKm : Q) : option OptimalRouteData :=
  if (List.length validRoutes =? 0)%nat then None
  else
    let routesInTolerance :=
      filter (in_tolerance desiredDistanceKm) validRoutes in
    if (0 <? List.length routesInTolerance)%nat
    then first_or_null
           (Array_sort (compare_in_tolerance desiredDistanceKm)
              routesInTolerance)
    else first_or_null
           (Array_sort (compare_closest desiredDistanceKm) validRoutes).

Definition findOptimalLoopRoute (window : Window)
    (startPoint : LatLng) (desiredDistanceKm : Q)
    : Completion (option OptimalRouteData) * list Event :=
  match google window with
  | None => (throws "Google Maps API not loaded.", [])
  | Some g =>
      match maps g with
      | None => (throws "Google Maps API not loaded.", [])
      | Some m =>
          let fo := fan_out window m startPoint desiredDistanceKm in
          match Promise_allSettled (candidatePromises fo) with
          | None => (never_returns, events fo)
          | Some results =>
              (returns (select_route (validRoutes_of results)
                          desiredDistanceKm),
               events fo)
          end
      end
  end.

(** ** The caller: [handleGenerateCourse] of the application component

    Only the state the handler reads and writes is kept; fitting the map to
    the bounds of the route is left out. *)
Module App.

Definition DEFAULT_PACE_MIN_PER_KM : Q := 6.

Record RouteStats := {
  totalDistanceKm : Q;
  cumulativeElevationGainM : Q;
  estimatedTimeMin : Q
}.

Record GeneratedCourse := {
  directionsResult : DirectionsResult;
  stats : RouteStats
}.

Record State := {
  userStartPoint : option LatLng;
  desiredDistanceKm : Q;
  generatedCourse : option GeneratedCourse;
  isLoading : bool;
  error : option string
}.

(** [parseFloat(x.toFixed(digits))] on the exact value: the nearest
    multiple of [10^-digits], the one of larger magnitude on a tie.  The
    code rounds the double, so the last digit shown can differ (the double
    nearest to 1.45 lies below it and is shown as 1.4).  The properties
    below use the shape of the course record only, not its digits. *)
Definition toFixed (x : Q) (digits : nat) : Q :=
  let scale := inject_Z (10 ^ Z.of_nat digits) in
  let r := inject_Z (Qfloor (Qabs x * scale + 1 / 2)) / scale in
  if Qlt_le_dec x 0 then - r else r.

Definition set_error (st : State) (e : option string) : State :=
  {| userStartPoint := userStartPoint st;
     desiredDistanceKm := desiredDistanceKm st;
     generatedCourse := generatedCourse st;
     isLoading := isLoading st;
     error := e |}.

Definition handleGenerateCourse (window : Window) (st : State)
    : State * list Event :=
  match userStartPoint st with
  | None => (set_error st (Some "Please set a start point on the map."%string), [])
  | Some startPoint =>
      if Qle_bool (desiredDistanceKm st) 0
      then (set_error st
              (Some "Please enter a valid distance greater than 0 km."%string), [])
      else
        let started :=
          {| userStartPoint := userStartPoint st;
             desiredDistanceKm := desiredDistanceKm st;
             generatedCourse := None;
             isLoading := true;
             error := None |} in
        let finish (course : option GeneratedCourse) (e : option string) :=
          {| userStartPoint := userStartPoint st;
             desiredDistanceKm := desiredDistanceKm st;
             generatedCourse := course;
             isLoading := false;
             error := e |} in
        match findOptimalLoopRoute window startPoint (desiredDistanceKm st) with
        | (returns (Some optimalRouteData), evs) =>
            let estimatedTimeMin :=
              distanceKm optimalRouteData * DEFAULT_PACE_MIN_PER_KM in
            let stats :=
              {| totalDistanceKm := toFixed (distanceKm optimalRouteData) 1;
                 cumulativeElevationGainM :=
                   toFixed (elevationGainM optimalRouteData) 0;
                 estimatedTimeMin := toFixed estimatedTimeMin 0 |} in
            (finish (Some {| directionsResult := route optimalRouteData;
                             stats := stats |}) None, evs)
        | (returns None, evs) =>
            (finish None
               (Some "Could not find a suitable course. Try adjusting the distance or start point."%string),
             evs)
        | (throws message, evs) =>
            (finish None (Some message),
             evs ++ [ConsoleError
                       (String.append "Course generation error: " message)])
        | (never_returns, evs) => (started, evs)
        end
  end.

End App.

(** ** Sample data *)

Definition sample (e : Q) : ElevationResult :=
  {| elevation := e; resolution := 1 |}.

Definition no_route : DirectionsResult := {| routes := [] |}.

(** ** Reading the log *)

Definition directions_queries (evs : list Event) : list DirectionsRequest :=
  flat_map (fun e => match e with DirectionsQuery q => [q] | _ => [] end) evs.

Definition elevation_queries (evs : list Event) : list PathElevationRequest :=
  flat_map (fun e => match e with ElevationQuery q => [q] | _ => [] end) evs.

(** The sum of the distance values of the legs that carry one, as the
    specification words it. *)
Definition sum_present_distances (ls : list DirectionsLeg) : Q :=
  fold_right Qplus 0
    (flat_map (fun leg => match distance leg with
                          | Some dv => [value dv]
                          | None => []
                          end) ls).

(** ** What a surfaced candidate carries *)

(** The data of a candidate come from the first route of the result it
    holds: a path of two points at least and a summed distance that is
    not zero, converted to kilometres. *)
Definition surfaced (r : OptimalRouteData) : Prop :=
  exists rt rest,
    routes (route r) = rt :: rest
    /\ (2 <= List.length (overview_path rt))%nat
    /\ distanceKm r = actualDistanceMeters_of rt / 1000
    /\ ~ actualDistanceMeters_of rt == 0.

Definition candidate_ok (p : Promise (option OptimalRouteData)) : Prop :=
  match p with
  | fulfilled (Some r) => surfaced r
  | fulfilled None => True
  | rejected => True
  | pending => False
  end.

Definition sample_count_ok (q : PathElevationRequest) : Prop :=
  samples q = Nat.min 128 (List.length (path q))
  /\ (2 <= List.length (path q))%nat.


(** ** Sample environments *)

Definition start0 : LatLng := {| lat := 35.6895; lng := 139.6917 |}.

(** A stand-in for the projection: any function of the three arguments
    will do for the properties below. *)
Definition flat_offset : GeometryLibrary :=
  {| computeOffset := fun from dist heading =>
       {| lat := lat from + dist; lng := lng from + heading |} |}.

Definition leg_of (meters : Q) : DirectionsLeg :=
  {| distance := Some {| text := ""; value := meters |} |}.

Definition leg_without_distance : DirectionsLeg := {| distance := None |}.

Definition route0 : DirectionsRoute :=
  {| legs := [leg_of 2100; leg_without_distance; leg_of 2400];
     overview_path := [start0; {| lat := 35.7; lng := 139.7 |}; start0] |}.

(** A route whose overview path has 200 points. *)
Definition route_long : DirectionsRoute :=
  {| legs := [leg_of 5200]; overview_path := repeat start0 200 |}.

Definition route_without_distances : DirectionsRoute :=
  {| legs := [leg_without_distance; leg_without_distance];
     overview_path := [start0; {| lat := 35.7; lng := 139.7 |}; start0] |}.

Definition elevations0 : ElevationReply :=
  {| elevationResults := Some [sample 10; sample 14; sample 11];
     elevationStatus := ES_OK |}.

(** Every route query finds [route0]; the geometry library is loaded. *)
Definition maps_ok : MapsApi :=
  {| geometry := Some flat_offset;
     DirectionsService_route := fun _ _ =>
       route_callback (Some {| routes := [route0] |}) DS_OK;
     ElevationService_getElevationForPath := fun _ _ => elevations0 |}.

(** Every route query fails, in one way or another. *)
Definition maps_failing : MapsApi :=
  {| geometry := Some flat_offset;
     DirectionsService_route := fun k _ =>
       match k with
       | O => route_throws
       | 1%nat => route_callback None DS_ZERO_RESULTS
       | 2%nat => route_callback None DS_OVER_QUERY_LIMIT
       | 3%nat => route_callback (Some {| routes := [] |}) DS_OK
       | 4%nat =>
           route_callback (Some {| routes := [route_without_distances] |}) DS_OK
       | _ => route_callback (Some {| routes := [route0] |}) DS_OK
       end;
     ElevationService_getElevationForPath := fun _ _ =>
       {| elevationResults := None; elevationStatus := ES_UNKNOWN_ERROR |} |}.

(** The Maps API is loaded without its geometry library. *)
Definition maps_without_geometry : MapsApi :=
  {| geometry := None;
     DirectionsService_route := DirectionsService_route maps_ok;
     ElevationService_getElevationForPath :=
       ElevationService_getElevationForPath maps_ok |}.

Definition window_of (m : MapsApi) : Window :=
  {| google := Some {| maps := Some m |} |}.

Definition window_not_loaded : Window := {| google := None |}.

(** ** More readings of the log *)

Definition console_warnings (evs : list Event) : list string :=
  flat_map (fun e => match e with ConsoleWarn msg => [msg] | _ => [] end) evs.

(** A query for a walking loop from [startPoint] back to it through one
    stop, without alternatives. *)
Definition loop_query (startPoint : LatLng) (q : DirectionsRequest) : Prop :=
  origin q = startPoint
  /\ destination q = startPoint
  /\ travelMode q = WALKING
  /\ provideRouteAlternatives q = false
  /\ exists p, waypoints q = [{| location := p; stopover := true |}].

(** The two warnings of the code, the first never for [ZERO_RESULTS]. *)
Definition expected_warning (msg : string) : Prop :=
  (exists status,
      status <> DS_ZERO_RESULTS
      /\ msg = String.append "Directions request failed: "
                 (DirectionsStatus_str status))
  \/ (exists status,
         msg = String.append "Elevation query failed for a route: "
                 (ElevationStatus_str status)).

(** The candidate [r] was measured on the answers given to candidate [k]:
    its route is the result of that candidate's loop query, its distance
    the summed legs of the first route, its gain the gain of the samples
    returned for that route's overview path. *)
Definition measured_at (m : MapsApi) (startPoint : LatLng) (k : nat)
    (r : OptimalRouteData) : Prop :=
  exists waypoint rt rest results,
    DirectionsService_route m k (loop_request startPoint waypoint)
    = route_callback (Some (route r)) DS_OK
    /\ routes (route r) = rt :: rest
    /\ distanceKm r = actualDistanceMeters_of rt / 1000
    /\ ElevationService_getElevationForPath m k
         {| path := overview_path rt;
            samples := Nat.min ELEVATION_SAMPLES
                         (List.length (overview_path rt)) |}
       = {| elevationResults := Some results; elevationStatus := ES_OK |}
    /\ calculateCumulativeElevation results = Some (elevationGainM r).

(** No route is found for any candidate. *)
Definition maps_zero_results : MapsApi :=
  {| geometry := Some flat_offset;
     DirectionsService_route := fun _ _ =>
       route_callback None DS_ZERO_RESULTS;
     ElevationService_getElevationForPath := fun _ _ => elevations0 |}.

Definition state0 (startPoint : option LatLng) (d : Q) : App.State :=
  {| App.userStartPoint := startPoint;
     App.desiredDistanceKm := d;
     App.generatedCourse := None;
     App.isLoading := false;
     App.error := None |}.

(** ** The distance input: [handleInputChange] of the control panel *)
Module ControlPanel.

(** [\d] *)
Definition is_digit (c : Ascii.ascii) : bool :=
  (48 <=? Ascii.nat_of_ascii c)%nat && (Ascii.nat_of_ascii c <=? 57)%nat.

Definition digit_value (c : Ascii.ascii) : Z :=
  Z.of_nat (Ascii.nat_of_ascii c - 48).

(** [\d*] at the head of [s]: the digits it takes and what it leaves. *)
Fixpoint take_digits (s : string) : list Ascii.ascii * string :=
  match s with
  | String c s' =>
      if is_digit c
      then let '(ds, rest) := take_digits s' in (c :: ds, rest)
      else ([], s)
  | EmptyString => ([], EmptyString)
  end.

(** What follows the dot, when [rest] begins with one. *)
Definition after_dot (rest : string) : option string :=
  match rest with
  | String c rest' => if Ascii.eqb c "."%char then Some rest' else None
  | EmptyString => None
  end.

(** [/^\d*\.?\d*$/.test(s)] *)
Definition test_decimal (s : string) : bool :=
  let '(_, rest) := take_digits s in
  match rest with
  | EmptyString => true
  | _ =>
      match after_dot rest with
      | Some rest' =>
          match snd (take_digits rest') with
          | EmptyString => true
          | _ => false
          end
      | None => false
      end
  end.

(** [/^\d+$/.test(s)] *)
Definition test_digits (s : string) : bool :=
  match take_digits s with
  | (_ :: _, EmptyString) => true
  | _ => false
  end.

Definition decimal_value (ds : list Ascii.ascii) : Z :=
  fold_left (fun acc c => (10 * acc + digit_value c)%Z) ds 0%Z.

(** [parseFloat(s)] for a text made of digits and dots, as are the texts
    that pass one of the two tests; [None] is [NaN].  White space, signs,
    exponents and [Infinity] are not modelled. *)
Definition parseFloat (s : string) : option Q :=
  let '(int_digits, rest) := take_digits s in
  let frac_digits :=
    match after_dot rest with
    | Some rest' => fst (take_digits rest')
    | None => []
    end in
  match int_digits, frac_digits with
  | [], [] => None
  | _, _ =>
      Some (inject_Z (decimal_value int_digits)
            + inject_Z (decimal_value frac_digits)
              / inject_Z (10 ^ Z.of_nat (List.length frac_digits)))
  end.

(** [v >= 0], false for [NaN]. *)
Definition ge_zero (v : option Q) : bool :=
  match v with
  | Some x => Qle_bool 0 x
  | None => false
  end.

Definition first_test (value : string) : bool :=
  String.eqb value "" || (test_decimal value && ge_zero (parseFloat value)).

Definition second_test (value : string) : bool :=
  test_digits value && ge_zero (parseFloat value).

(** The argument of the call of [onDistanceChange], if the handler makes
    one. *)
Definition handleInputChange (value : string) : option (option Q) :=
  if first_test value
  then Some (if String.eqb value "" then Some 0 else parseFloat value)
  else if second_test value
  then Some (parseFloat value)
  else None.

End ControlPanel.

(** * The arithmetic of the code: IEEE 754 binary64

    A JavaScript [number] is a binary64 float: every [+], [-], [*] and [/]
    rounds to nearest, ties to even, and every comparison is the IEEE one
    ([NaN] compares false, [+0] equals [-0]).  The functions of
    [mapService.ts] whose result depends on the outcome of arithmetic are
    embedded here a second time, over Rocq's primitive binary64 floats,
    operation for operation. *)

(** ** Reading the order of floats on integers

    A float that is not [NaN] is given a key, a triple of integers ordered
    lexicographically, that orders the keys as IEEE orders the floats. *)

Definition signed_nonzero (s : bool) (f : spec_float) : Prop :=
  match f with
  | S754_finite s' _ _ | S754_infinity s' => s' = s
  | _ => False
  end.

Definition SF_is_finite (f : spec_float) : Prop :=
  match f with
  | S754_zero _ | S754_finite _ _ _ => True
  | _ => False
  end.

Definition SFkey (f : spec_float) : Z * Z * Z :=
  match f with
  | S754_zero _ => (0, 0, 0)
  | S754_infinity false => (2, 0, 0)
  | S754_infinity true => (-2, 0, 0)
  | S754_nan => (0, 0, 0)
  | S754_finite false m e => (1, e, Zpos m)
  | S754_finite true m e => (-1, - e, - Zpos m)
  end%Z.

Definition key_lt (a b : Z * Z * Z) : Prop :=
  let '(a1, a2, a3) := a in
  let '(b1, b2, b3) := b in
  (a1 < b1 \/ (a1 = b1 /\ (a2 < b2 \/ (a2 = b2 /\ a3 < b3))))%Z.

Definition key_eq (a b : Z * Z * Z) : Prop :=
  let '(a1, a2, a3) := a in
  let '(b1, b2, b3) := b in
  (a1 = b1 /\ a2 = b2 /\ a3 = b3)%Z.

Definition fkey (x : float) : Z * Z * Z := SFkey (Prim2SF x).

(** The rational that a finite float denotes ([0] for the others). *)
Definition exact_value (x : float) : Q :=
  match Prim2SF x with
  | S754_finite s m e =>
      (if s then -1 else 1) * inject_Z (Zpos m) * Qpower 2 e
  | _ => 0
  end.

Module Binary64.
Local Open Scope float_scope.

(** A decimal literal denotes the nearest double, as in JavaScript. *)

Definition DISTANCE_TOLERANCE_FACTOR : float := 0.25.

Record ElevationResult := { elevation : float; resolution : float }.

Record OptimalRouteData := {
  route : DirectionsResult;
  distanceKm : float;
  elevationGainM : float
}.

(** *** [calculateCumulativeElevation] (mapService.ts, lines 18-27) *)

Definition elevation_step (elevations : list ElevationResult)
    (i : nat) (gain : float) : option float :=
  cur <- nth_error elevations i ;;
  prev <- nth_error elevations (i - 1)%nat ;;
  let diff := elevation cur - elevation prev in
  Some (if 0 <? diff then gain + diff else gain).

Definition calculateCumulativeElevation
    (elevations : list ElevationResult) : option float :=
  for_range 1 (List.length elevations)
    (fun i acc => gain <- acc ;; elevation_step elevations i gain)
    (Some 0).

(** What the running [gain] always is: [+0], or a number above zero. *)
Definition gain_invariant (gain : float) : Prop :=
  gain = 0 \/ (0 <? gain) = true.

(** [max(0, next - previous)] as the specification words it, taken as 0
    also where the difference is [NaN]. *)
Definition rise (previous next : float) : float :=
  if 0 <? next - previous then next - previous else 0.

(** The sum of the rises of the consecutive pairs, added up from the left,
    each addition rounded. *)
Fixpoint sum_of_rises (gain : float) (es : list float) : float :=
  match es with
  | a :: (b :: _) as tl => sum_of_rises (gain + rise a b) tl
  | _ => gain
  end.

(** The same running sum over the differences themselves. *)
Fixpoint sum_of_differences (gain : float) (es : list float) : float :=
  match es with
  | a :: (b :: _) as tl => sum_of_differences (gain + (b - a)) tl
  | _ => gain
  end.

Definition never_rises (es : list float) : Prop :=
  Sorted (fun previous next => (next <=? previous) = true) es.

Definition never_falls (es : list float) : Prop :=
  Sorted (fun previous next => (previous <=? next) = true) es.

Definition sample (e : float) : ElevationResult :=
  {| elevation := e; resolution := 1 |}.

(** *** [Array.prototype.sort] with a comparator

    [y] goes before [x] only when [compareFn x y > 0]; a comparator result
    of [NaN] counts as 0. *)
Section Sort.
Context {A : Type} (compareFn : A -> A -> float).

Fixpoint sort_insert (x : A) (l : list A) : list A :=
  match l with
  | [] => [x]
  | y :: l' =>
      if 0 <? compareFn x y then y :: sort_insert x l' else x :: l
  end.

Definition Array_sort (l : list A) : list A :=
  fold_right sort_insert [] l.

End Sort.

(** A comparator on two keys: the difference of the first keys where they
    differ, else the difference of the second keys. *)
Definition compare_keys {A : Type} (key1 key2 : A -> float) (a b : A)
    : float :=
  if negb (key1 a =? key1 b) then key1 a - key1 b else key2 a - key2 b.

(** Both keys of [a] are numbers. *)
Definition keys_ok {A : Type} (key1 key2 : A -> float) (a : A) : Prop :=
  is_nan (key1 a) = false /\ is_nan (key2 a) = false.

(** [a] is before, or level with, [b]: lower on the first key, or equal on
    it and not higher on the second. *)
Definition keys_le {A : Type} (key1 key2 : A -> float) (a b : A) : Prop :=
  (key1 a <? key1 b) = true
  \/ ((key1 a =? key1 b) = true /\ (key2 a <=? key2 b) = true).

(** *** The selection (mapService.ts, lines 106-145) *)

(** Lines 115-120 *)
Definition in_tolerance (desiredDistanceKm : float)
    (r : OptimalRouteData) : bool :=
  let minDesiredKm := desiredDistanceKm * (1 - DISTANCE_TOLERANCE_FACTOR) in
  let maxDesiredKm := desiredDistanceKm * (1 + DISTANCE_TOLERANCE_FACTOR) in
  (minDesiredKm <=? distanceKm r) && (distanceKm r <=? maxDesiredKm).

(** [Math.abs(r.distanceKm - desiredDistanceKm)] *)
Definition distDiff (desiredDistanceKm : float) (r : OptimalRouteData)
    : float :=
  abs (distanceKm r - desiredDistanceKm).

(** Lines 123-130 *)
Definition compare_in_tolerance (desiredDistanceKm : float)
    (a b : OptimalRouteData) : float :=
  if negb (elevationGainM a =? elevationGainM b)
  then elevationGainM a - elevationGainM b
  else abs (distanceKm a - desiredDistanceKm)
       - abs (distanceKm b - desiredDistanceKm).

(** Lines 134-143 *)
Definition compare_closest (desiredDistanceKm : float)
    (a b : OptimalRouteData) : float :=
  let distDiffA := abs (distanceKm a - desiredDistanceKm) in
  let distDiffB := abs (distanceKm b - desiredDistanceKm) in
  if negb (distDiffA =? distDiffB)
  then distDiffA - distDiffB
  else elevationGainM a - elevationGainM b.

Definition select_route (validRoutes : list OptimalRouteData)
    (desiredDistanceKm : float) : option OptimalRouteData :=
  if (List.length validRoutes =? 0)%nat then None
  else
    let routesInTolerance :=
      filter (in_tolerance desiredDistanceKm) validRoutes in
    if (0 <? List.length routesInTolerance)%nat
    then first_or_null
           (Array_sort (compare_in_tolerance desiredDistanceKm)
              routesInTolerance)
    else first_or_null
           (Array_sort (compare_closest desiredDistanceKm) validRoutes).

(** *** The band and the distance error in exact arithmetic

    What the band and the error are when the products and the difference
    are not rounded: the values of the floats are combined as rationals. *)

Definition within_exact_band (desiredDistanceKm : float)
    (r : OptimalRouteData) : Prop :=
  (exact_value desiredDistanceKm * (1 - 0.25)
   <= exact_value (distanceKm r)
   /\ exact_value (distanceKm r)
      <= exact_value desiredDistanceKm * (1 + 0.25))%Q.

Definition exact_distance_error (desiredDistanceKm : float)
    (r : OptimalRouteData) : Q :=
  Qabs (exact_value (distanceKm r) - exact_value desiredDistanceKm).

(** The sort keys of a candidate are numbers. *)
Definition keys_are_numbers (desiredDistanceKm : float)
    (r : OptimalRouteData) : Prop :=
  is_nan (elevationGainM r) = false
  /\ is_nan (distDiff desiredDistanceKm r) = false.

(** *** Scenarios of the specification *)

(** A candidate as line 81 builds it: [distanceKm] is the quotient
    [actualDistanceMeters / 1000]. *)
Definition candidate (actualDistanceMeters elevationGainM : float)
    : OptimalRouteData :=
  {| route := no_route;
     distanceKm := actualDistanceMeters / 1000;
     elevationGainM := elevationGainM |}.

Definition cand_A := candidate 5000 50.
Definition cand_B := candidate 4000 10.
Definition cand_C := candidate 6500 5.
Definition cand_D := candidate 7000 20.
Definition cand_E := candidate 8000 5.

End Binary64.

(** * Properties *)

(** ** Elevation gain *)

Lemma skipn_nth_error_cons {A : Type} (l : list A) (k : nat) (x : A) :
  nth_error l k = Some x -> skipn k l = x :: skipn (S k) l.
Proof.
  revert k; induction l as [|a l IH]; intros [|k] H; simpl in *;
    try discriminate.
  - now inversion H.
  - now apply IH.
Qed.

Lemma nth_error_in_range {A : Type} (l : list A) (k : nat) :
  (k < List.length l)%nat -> exists x, nth_error l k = Some x.
Proof.
  intros H. destruct (nth_error l k) eqn:E; [now eexists|].
  apply nth_error_None in E. lia.
Qed.

Lemma gain_step_max (gain diff : Q) :
  (if Qgtb0 diff then gain + diff else gain) == gain + Qmax 0 diff.
Proof.
  unfold Qgtb0. destruct (Qlt_le_dec 0 diff) as [H|H].
  - rewrite Q.max_r by now apply Qlt_le_weak. reflexivity.
  - rewrite Q.max_l by exact H. ring.
Qed.

(** The loop, entered at index [i] with [n] iterations left, adds the
    positive deltas of the samples from index [i - 1] on. *)
Lemma elevation_loop_spec (elevations : list ElevationResult) :
  forall (n i : nat) (gain : Q),
    (1 <= i)%nat -> (i + n = List.length elevations)%nat ->
    exists gain',
      for_loop n i
        (fun i acc => g <- acc ;; elevation_step elevations i g)
        (Some gain) = Some gain'
      /\ gain' == gain
           + positive_delta_sum (map elevation (skipn (i - 1) elevations)).
Proof.
  induction n as [|n IH]; intros i gain Hi Hlen.
  - exists gain. split; [reflexivity|].
    destruct (nth_error_in_range elevations (i - 1)) as [x Hx]; [lia|].
    rewrite (skipn_nth_error_cons _ _ _ Hx).
    replace (S (i - 1)) with (List.length elevations) by lia.
    rewrite skipn_all. simpl. ring.
  - destruct (nth_error_in_range elevations i) as [cur Hcur]; [lia|].
    destruct (nth_error_in_range elevations (i - 1)) as [prev Hprev]; [lia|].
    assert (Hstep : elevation_step elevations i gain
                    = Some (if Qgtb0 (elevation cur - elevation prev)
                            then gain + (elevation cur - elevation prev)
                            else gain)).
    { unfold elevation_step. rewrite Hcur, Hprev. reflexivity. }
    cbn [for_loop bind]. rewrite Hstep.
    destruct (IH (S i)
                (if Qgtb0 (elevation cur - elevation prev)
                 then gain + (elevation cur - elevation prev) else gain))
      as (g' & Hrun & Hsum); [lia | lia |].
    exists g'. split; [exact Hrun|].
    rewrite Hsum, gain_step_max.
    rewrite (skipn_nth_error_cons _ _ _ Hprev).
    replace (S (i - 1)) with i by lia.
    replace (S i - 1)%nat with i by lia.
    rewrite (skipn_nth_error_cons _ _ _ Hcur).
    cbn [map positive_delta_sum]. ring.
Qed.

Lemma calculateCumulativeElevation_spec (elevations : list ElevationResult) :
  exists gain,
    calculateCumulativeElevation elevations = Some gain
    /\ gain == positive_delta_sum (map elevation elevations).
Proof.
  unfold calculateCumulativeElevation, for_range.
  destruct elevations as [|e0 rest] eqn:E.
  - exists 0. split; reflexivity.
  - rewrite <- E.
    destruct (elevation_loop_spec elevations (List.length elevations - 1) 1 0)
      as (g & Hrun & Hsum); [lia | subst; simpl; lia |].
    exists g. split; [exact Hrun|].
    rewrite Hsum. simpl. ring.
Qed.

(** C9.  The gain computation never reads outside the array: it returns on
    every input, and on an array of fewer than two samples it returns 0. *)
Theorem cumulative_elevation_total (elevations : list ElevationResult) :
  (exists gain, calculateCumulativeElevation elevations = Some gain)
  /\ ((List.length elevations < 2)%nat ->
      calculateCumulativeElevation elevations = Some 0).
Proof.
  split.
  - destruct (calculateCumulativeElevation_spec elevations) as (g & Hrun & _).
    now exists g.
  - intros H. destruct elevations as [|a [|b l]]; simpl in H; try lia;
      reflexivity.
Qed.

Lemma cumulative_elevation_total_witness :
  calculateCumulativeElevation [] = Some 0
  /\ calculateCumulativeElevation [sample 42] = Some 0.
Proof.
  split.
  - apply (proj2 (cumulative_elevation_total [])). simpl. lia.
  - apply (proj2 (cumulative_elevation_total [sample 42])). simpl. lia.
Defined.

(** ** Sorting with a comparator *)

Section SortFacts.
Context {A : Type} (compareFn : A -> A -> Q).

Lemma sort_insert_perm (x : A) (l : list A) :
  Permutation (x :: l) (sort_insert compareFn x l).
Proof.
  induction l as [|y l IH]; simpl; [reflexivity|].
  destruct (Qgtb0 (compareFn x y)); [|reflexivity].
  rewrite perm_swap. now constructor.
Qed.

Lemma Array_sort_perm (l : list A) :
  Permutation l (Array_sort compareFn l).
Proof.
  induction l as [|x l IH]; simpl; [reflexivity|].
  rewrite <- sort_insert_perm. now constructor.
Qed.

Lemma Array_sort_nonempty (l : list A) :
  l <> [] -> Array_sort compareFn l <> [].
Proof.
  intros Hl Hs. pose proof (Array_sort_perm l) as P. rewrite Hs in P.
  apply Permutation_sym, Permutation_nil in P. contradiction.
Qed.

End SortFacts.

(** ** The selector *)

Lemma first_or_null_some {A : Type} (l : list A) :
  l <> [] -> exists x, first_or_null l = Some x.
Proof. destruct l as [|x t]; [congruence | now exists x]. Qed.

(** ** The fan-out over the candidates *)

Lemma for_loop_invariant {S : Type} (Inv : S -> Prop)
    (body : nat -> S -> S) :
  (forall i s, Inv s -> Inv (body i s)) ->
  forall n i s, Inv s -> Inv (for_loop n i body s).
Proof.
  intros Hbody. induction n as [|n IH]; intros i s Hs; simpl; auto.
Qed.

Lemma calculateIntermediatePoint_loaded (m : MapsApi) (geo : GeometryLibrary)
    (startPoint : LatLng) (angle dist : Q) :
  geometry m = Some geo ->
  calculateIntermediatePoint (window_of m) startPoint angle dist
  = Some (computeOffset geo startPoint dist angle).
Proof. intros H. unfold calculateIntermediatePoint. simpl. now rewrite H. Qed.

Lemma calculateIntermediatePoint_missing (m : MapsApi)
    (startPoint : LatLng) (angle dist : Q) :
  geometry m = None ->
  calculateIntermediatePoint (window_of m) startPoint angle dist = None.
Proof. intros H. unfold calculateIntermediatePoint. simpl. now rewrite H. Qed.

Lemma window_loaded (window : Window) (g : GoogleNamespace) (m : MapsApi) :
  google window = Some g -> maps g = Some m -> window = window_of m.
Proof.
  destruct window as [gw], g as [mg]. simpl. intros -> ->. reflexivity.
Qed.

(** The events of a candidate hold its directions query and nothing of
    another candidate's. *)
Lemma directions_callback_no_directions_query (m : MapsApi) (k : nat)
    (result : option DirectionsResult) (status : DirectionsStatus) :
  directions_queries (snd (directions_callback m k result status)) = [].
Proof.
  unfold directions_callback.
  destruct (first_route result status) as [[res rt]|].
  - destruct (Qeq_bool _ 0); [reflexivity|].
    destruct (_ <? 2)%nat; [reflexivity|].
    destruct (ElevationService_getElevationForPath m k _) as [results est].
    unfold elevation_callback. simpl.
    destruct (ElevationStatus_eqb est ES_OK), results as [samples|];
      try reflexivity.
    destruct (calculateCumulativeElevation samples); reflexivity.
  - destruct (negb _); reflexivity.
Qed.

Lemma candidate_promise_directions_query (m : MapsApi) (k : nat)
    (request : DirectionsRequest) :
  directions_queries (snd (candidate_promise m k request)) = [request].
Proof.
  unfold candidate_promise.
  destruct (DirectionsService_route m k request) as [result status|];
    [|reflexivity].
  pose proof (directions_callback_no_directions_query m k result status) as H.
  destruct (directions_callback m k result status) as [p evs].
  simpl in *. now rewrite H.
Qed.

Lemma directions_queries_app (e1 e2 : list Event) :
  directions_queries (e1 ++ e2) = directions_queries e1 ++ directions_queries e2.
Proof. unfold directions_queries. apply flat_map_app. Qed.

Section GeometryLoaded.
Variables (m : MapsApi) (geo : GeometryLibrary).
Hypothesis geometry_loaded : geometry m = Some geo.
Variables (startPoint : LatLng) (dist : Q).

Lemma candidate_loop_loaded :
  forall n i st,
    List.length (candidatePromises st) = i ->
    let st' := for_loop n i
                 (candidate_step (window_of m) m startPoint dist) st in
    List.length (candidatePromises st') = (i + n)%nat
    /\ directions_queries (events st')
       = directions_queries (events st)
         ++ map (fun j =>
                   loop_request startPoint
                     (computeOffset geo startPoint dist (candidate_angle j)))
              (seq i n).
Proof.
  induction n as [|n IH]; intros i st Hlen.
  - simpl. rewrite app_nil_r. split; [lia | reflexivity].
  - cbn [for_loop].
    set (st1 := candidate_step (window_of m) m startPoint dist i st).
    assert (H1 : List.length (candidatePromises st1) = S i
                 /\ directions_queries (events st1)
                    = directions_queries (events st)
                      ++ [loop_request startPoint
                            (computeOffset geo startPoint dist
                               (candidate_angle i))]).
    { subst st1. unfold candidate_step.
      rewrite (calculateIntermediatePoint_loaded m geo) by assumption.
      pose proof (candidate_promise_directions_query m
                    (List.length (candidatePromises st))
                    (loop_request startPoint
                       (computeOffset geo startPoint dist (candidate_angle i))))
        as Hq.
      destruct (candidate_promise m _ _) as [p evs]. simpl in *.
      rewrite length_app, directions_queries_app, Hq. simpl.
      split; [lia | reflexivity]. }
    destruct H1 as [Hl1 Hq1].
    destruct (IH (S i) st1 Hl1) as [Hl Hq]. split; [lia|].
    rewrite Hq, Hq1, <- app_assoc. reflexivity.
Qed.
End GeometryLoaded.

Lemma candidate_loop_missing (m : MapsApi) (startPoint : LatLng) (dist : Q) :
  geometry m = None ->
  forall n i st,
    for_loop n i (candidate_step (window_of m) m startPoint dist) st = st.
Proof.
  intros Hgeo. induction n as [|n IH]; intros i st; [reflexivity|].
  cbn [for_loop]. unfold candidate_step at 2.
  rewrite calculateIntermediatePoint_missing by assumption. apply IH.
Qed.

Lemma findOptimalLoopRoute_events (m : MapsApi) (startPoint : LatLng) (d : Q) :
  snd (findOptimalLoopRoute (window_of m) startPoint d)
  = events (fan_out (window_of m) m startPoint d).
Proof.
  unfold findOptimalLoopRoute. simpl.
  destruct (Promise_allSettled _); reflexivity.
Qed.

(** C5.  With the geometry library loaded the loop issues exactly
    N = 8 loop queries, the [i]-th through the waypoint that lies at
    bearing [(360 / 8) * i] degrees and at [d * 0.4 * 1000] metres from
    the start point, for [i] from 0 to 7. *)
Theorem eight_evenly_spaced_waypoints
    (m : MapsApi) (geo : GeometryLibrary) (startPoint : LatLng) (d : Q) :
  geometry m = Some geo ->
  let queries :=
    directions_queries (snd (findOptimalLoopRoute (window_of m) startPoint d)) in
  List.length queries = 8%nat
  /\ map waypoints queries
     = map (fun i =>
              [{| location :=
                    computeOffset geo startPoint (d * 0.4 * 1000)
                      ((360 / 8) * inject_Z (Z.of_nat i));
                  stopover := true |}])
         [0; 1; 2; 3; 4; 5; 6; 7]%nat
  /\ Forall (fun q => origin q = startPoint /\ destination q = startPoint)
       queries.
Proof.
  intros Hgeo queries. subst queries. rewrite findOptimalLoopRoute_events.
  destruct (candidate_loop_loaded m geo Hgeo startPoint
              (d * INTERMEDIATE_POINT_RADIUS_FACTOR * 1000)
              NUM_INTERMEDIATE_POINT_CANDIDATES 0
              {| candidatePromises := []; events := [] |} eq_refl)
    as [_ Hq].
  change (for_loop _ _ _ _) with (fan_out (window_of m) m startPoint d) in Hq.
  rewrite Hq. split; [reflexivity|]. split; [reflexivity|].
  simpl. repeat constructor.
Qed.

Lemma eight_evenly_spaced_waypoints_witness :
  map waypoints
    (directions_queries
       (snd (findOptimalLoopRoute (window_of maps_ok) start0 5)))
  = map (fun i =>
           [{| location :=
                 computeOffset flat_offset start0 (5 * 0.4 * 1000)
                   ((360 / 8) * inject_Z (Z.of_nat i));
               stopover := true |}])
      [0; 1; 2; 3; 4; 5; 6; 7]%nat.
Proof.
  apply (eight_evenly_spaced_waypoints maps_ok flat_offset start0 5).
  reflexivity.
Defined.

(** ** One candidate *)

Lemma DirectionsStatus_eqb_eq (a b : DirectionsStatus) :
  DirectionsStatus_eqb a b = true -> a = b.
Proof. destruct a, b; simpl; congruence. Qed.

Lemma first_route_inv (result : option DirectionsResult)
    (status : DirectionsStatus) (res : DirectionsResult) (rt : DirectionsRoute) :
  first_route result status = Some (res, rt) ->
  result = Some res /\ status = DS_OK /\ exists rest, routes res = rt :: rest.
Proof.
  unfold first_route.
  destruct (DirectionsStatus_eqb status DS_OK) eqn:E; [|discriminate].
  apply DirectionsStatus_eqb_eq in E.
  destruct result as [res'|]; [|discriminate].
  destruct (routes res') as [|rt' rest] eqn:R; [discriminate|].
  intros [= <- <-]. repeat split; trivial. now exists rest.
Qed.

Lemma first_route_ok (res : DirectionsResult) (rt : DirectionsRoute)
    (rest : list DirectionsRoute) :
  routes res = rt :: rest -> first_route (Some res) DS_OK = Some (res, rt).
Proof. intros H. unfold first_route. simpl. now rewrite H. Qed.

Lemma elevation_callback_inv (res : DirectionsResult) (meters : Q)
    (reply : ElevationReply) :
  snd (elevation_callback res meters reply) = []
  \/ (exists msg, snd (elevation_callback res meters reply) = [ConsoleWarn msg]).
Proof.
  unfold elevation_callback.
  destruct (ElevationStatus_eqb _ ES_OK), (elevationResults reply) as [l|];
    try (right; eexists; reflexivity).
  destruct (calculateCumulativeElevation l); left; reflexivity.
Qed.

Lemma elevation_callback_promise (res : DirectionsResult) (meters : Q)
    (reply : ElevationReply) :
  fst (elevation_callback res meters reply) = fulfilled None
  \/ exists gain,
       fst (elevation_callback res meters reply)
       = fulfilled (Some {| route := res;
                            distanceKm := meters / 1000;
                            elevationGainM := gain |}).
Proof.
  unfold elevation_callback.
  destruct (ElevationStatus_eqb _ ES_OK), (elevationResults reply) as [l|];
    try (left; reflexivity).
  destruct (calculateCumulativeElevation_spec l) as (g & Hg & _).
  rewrite Hg. right. now exists g.
Qed.

Lemma Qeq_bool_false (x y : Q) : Qeq_bool x y = false -> ~ x == y.
Proof. intros H E. apply Qeq_bool_iff in E. congruence. Qed.

(** A route that passes the two guards is queried for its elevation, with
    the sample count of line 75. *)
Lemma directions_callback_queried (m : MapsApi) (k : nat)
    (res : DirectionsResult) (rt : DirectionsRoute)
    (rest : list DirectionsRoute) :
  routes res = rt :: rest ->
  ~ actualDistanceMeters_of rt == 0 ->
  (2 <= List.length (overview_path rt))%nat ->
  let req := {| path := overview_path rt;
                samples := Nat.min ELEVATION_SAMPLES
                             (List.length (overview_path rt)) |} in
  directions_callback m k (Some res) DS_OK
  = (fst (elevation_callback res (actualDistanceMeters_of rt)
            (ElevationService_getElevationForPath m k req)),
     ElevationQuery req
     :: snd (elevation_callback res (actualDistanceMeters_of rt)
               (ElevationService_getElevationForPath m k req))).
Proof.
  intros Hr Hne Hlen req. unfold directions_callback.
  rewrite (first_route_ok res rt rest Hr).
  destruct (Qeq_bool (actualDistanceMeters_of rt) 0) eqn:E.
  { apply Qeq_bool_iff in E. contradiction. }
  destruct (List.length (overview_path rt) <? 2)%nat eqn:L.
  { apply Nat.ltb_lt in L. lia. }
  fold req. now destruct (elevation_callback _ _ _).
Qed.

(** A route that fails a guard resolves to [null] at once. *)
Lemma directions_callback_discarded (m : MapsApi) (k : nat)
    (res : DirectionsResult) (rt : DirectionsRoute)
    (rest : list DirectionsRoute) :
  routes res = rt :: rest ->
  actualDistanceMeters_of rt == 0
  \/ (List.length (overview_path rt) < 2)%nat ->
  directions_callback m k (Some res) DS_OK = (fulfilled None, []).
Proof.
  intros Hr Hbad. unfold directions_callback.
  rewrite (first_route_ok res rt rest Hr).
  destruct (Qeq_bool (actualDistanceMeters_of rt) 0) eqn:E; [reflexivity|].
  apply Qeq_bool_false in E.
  destruct Hbad as [Hz|Hshort]; [contradiction|].
  apply Nat.ltb_lt in Hshort. now rewrite Hshort.
Qed.

Lemma elevation_queries_warn (evs : list Event) :
  (evs = [] \/ exists msg, evs = [ConsoleWarn msg]) ->
  elevation_queries evs = [].
Proof. intros [->|[msg ->]]; reflexivity. Qed.

Lemma directions_callback_ok (m : MapsApi) (k : nat)
    (result : option DirectionsResult) (status : DirectionsStatus) :
  candidate_ok (fst (directions_callback m k result status))
  /\ Forall sample_count_ok
       (elevation_queries (snd (directions_callback m k result status))).
Proof.
  destruct (first_route result status) as [[res rt]|] eqn:F.
  - destruct (first_route_inv _ _ _ _ F) as (-> & -> & rest & Hr).
    destruct (Qeq_bool (actualDistanceMeters_of rt) 0) eqn:E.
    { apply Qeq_bool_iff in E.
      rewrite (directions_callback_discarded m k res rt rest Hr (or_introl E)).
      split; [exact I | constructor]. }
    apply Qeq_bool_false in E.
    destruct (le_lt_dec 2 (List.length (overview_path rt))) as [L|L].
    + rewrite (directions_callback_queried m k res rt rest Hr E L).
      cbn [fst snd]. split.
      * destruct (elevation_callback_promise res (actualDistanceMeters_of rt)
                    (ElevationService_getElevationForPath m k
                       {| path := overview_path rt;
                          samples := Nat.min ELEVATION_SAMPLES
                                       (List.length (overview_path rt)) |}))
          as [->|[g ->]]; [exact I|].
        exists rt, rest. simpl. auto.
      * change (elevation_queries (ElevationQuery ?q :: ?evs))
          with (q :: elevation_queries evs).
        rewrite (elevation_queries_warn _ (elevation_callback_inv _ _ _)).
        repeat constructor. exact L.
    + rewrite (directions_callback_discarded m k res rt rest Hr (or_intror L)).
      split; [exact I | constructor].
  - unfold directions_callback. rewrite F.
    destruct (negb _); split; try exact I; constructor.
Qed.

Lemma candidate_promise_ok (m : MapsApi) (k : nat)
    (request : DirectionsRequest) :
  candidate_ok (fst (candidate_promise m k request))
  /\ Forall sample_count_ok
       (elevation_queries (snd (candidate_promise m k request))).
Proof.
  unfold candidate_promise.
  destruct (DirectionsService_route m k request) as [result status|].
  - pose proof (directions_callback_ok m k result status) as H.
    destruct (directions_callback m k result status) as [p evs]. exact H.
  - split; [exact I | constructor].
Qed.

Lemma elevation_queries_app (e1 e2 : list Event) :
  elevation_queries (e1 ++ e2) = elevation_queries e1 ++ elevation_queries e2.
Proof. unfold elevation_queries. apply flat_map_app. Qed.

Lemma fan_out_ok (window : Window) (m : MapsApi)
    (startPoint : LatLng) (d : Q) :
  Forall candidate_ok (candidatePromises (fan_out window m startPoint d))
  /\ Forall sample_count_ok
       (elevation_queries (events (fan_out window m startPoint d))).
Proof.
  unfold fan_out, for_range.
  apply (for_loop_invariant
           (fun st => Forall candidate_ok (candidatePromises st)
                      /\ Forall sample_count_ok
                           (elevation_queries (events st)))).
  - intros i st [Hp He]. unfold candidate_step.
    destruct (calculateIntermediatePoint _ _ _ _) as [pt|]; [|now split].
    pose proof (candidate_promise_ok m (List.length (candidatePromises st))
                  (loop_request startPoint pt)) as [Hc Hq].
    destruct (candidate_promise m _ _) as [p evs]. simpl in *. split.
    + apply Forall_app. split; [exact Hp | now constructor].
    + rewrite elevation_queries_app. apply Forall_app. now split.
  - split; constructor.
Qed.

(** ** Settling and collecting *)

Lemma Promise_allSettled_ok (ps : list (Promise (option OptimalRouteData))) :
  Forall candidate_ok ps ->
  exists results,
    Promise_allSettled ps = Some results
    /\ Forall surfaced (validRoutes_of results).
Proof.
  induction 1 as [|p ps Hp _ (results & Hs & Hv)].
  - exists []. split; [reflexivity | constructor].
  - simpl. rewrite Hs. destruct p as [[r|]| |]; simpl in Hp.
    + eexists. split; [reflexivity|]. simpl. now constructor.
    + eexists. split; [reflexivity|]. exact Hv.
    + eexists. split; [reflexivity|]. exact Hv.
    + contradiction.
Qed.

Lemma validRoutes_of_In
    (results : list (PromiseSettledResult (option OptimalRouteData)))
    (v : OptimalRouteData) :
  In v (validRoutes_of results)
  <-> In (PromiseFulfilledResult (Some v)) results.
Proof.
  unfold validRoutes_of. rewrite in_flat_map. split.
  - intros ([[r|]|] & Hin & Hv); simpl in Hv; try contradiction.
    destruct Hv as [->|[]]. exact Hin.
  - intros H. exists (PromiseFulfilledResult (Some v)). split; [exact H|].
    now left.
Qed.

Lemma validRoutes_of_all_failed
    (results : list (PromiseSettledResult (option OptimalRouteData))) :
  (forall r, In r results ->
             r = PromiseRejectedResult \/ r = PromiseFulfilledResult None) ->
  validRoutes_of results = [].
Proof.
  induction results as [|r rs IH]; intros H; [reflexivity|].
  simpl. rewrite IH by (intros r' Hr'; apply H; now right).
  destruct (H r (or_introl eq_refl)) as [->| ->]; reflexivity.
Qed.

Lemma select_route_In (validRoutes : list OptimalRouteData) (d : Q)
    (r : OptimalRouteData) :
  select_route validRoutes d = Some r -> In r validRoutes.
Proof.
  unfold select_route.
  destruct (List.length validRoutes =? 0)%nat; [discriminate|].
  destruct (0 <? _)%nat; intros H.
  - assert (In r (Array_sort (compare_in_tolerance d)
                    (filter (in_tolerance d) validRoutes))) as Hin.
    { destruct (Array_sort _ _); [discriminate|].
      simpl in H. injection H as ->. now left. }
    apply (Permutation_in _ (Permutation_sym (Array_sort_perm _ _))) in Hin.
    now apply filter_In in Hin.
  - assert (In r (Array_sort (compare_closest d) validRoutes)) as Hin.
    { destruct (Array_sort _ _); [discriminate|].
      simpl in H. injection H as ->. now left. }
    now apply (Permutation_in _ (Permutation_sym (Array_sort_perm _ _))) in Hin.
Qed.

Lemma findOptimalLoopRoute_loaded (m : MapsApi) (startPoint : LatLng) (d : Q) :
  exists results,
    Promise_allSettled
      (candidatePromises (fan_out (window_of m) m startPoint d))
    = Some results
    /\ Forall surfaced (validRoutes_of results)
    /\ fst (findOptimalLoopRoute (window_of m) startPoint d)
       = returns (select_route (validRoutes_of results) d).
Proof.
  destruct (Promise_allSettled_ok _
              (proj1 (fan_out_ok (window_of m) m startPoint d)))
    as (results & Hs & Hv).
  exists results. split; [exact Hs|]. split; [exact Hv|].
  unfold findOptimalLoopRoute. simpl. now rewrite Hs.
Qed.

(** ** Summed leg distances *)

Lemma or_zero_distance_value (leg : DirectionsLeg) :
  or_zero (distance_value leg)
  == match distance leg with
     | Some dv => value dv
     | None => 0
     end.
Proof.
  unfold distance_value, or_zero. destruct (distance leg) as [dv|];
    [|reflexivity].
  destruct (Qeq_bool (value dv) 0) eqn:E; [|reflexivity].
  apply Qeq_bool_iff in E. now rewrite E.
Qed.

Lemma reduce_sum (ls : list DirectionsLeg) :
  forall acc,
    fold_left (fun sum leg => sum + or_zero (distance_value leg)) ls acc
    == acc + sum_present_distances ls.
Proof.
  induction ls as [|leg ls IH]; intros acc.
  - unfold sum_present_distances. simpl. ring.
  - cbn [fold_left]. rewrite IH, or_zero_distance_value.
    unfold sum_present_distances. cbn [flat_map].
    destruct (distance leg) as [dv|]; simpl; ring.
Qed.

Lemma actualDistanceMeters_sum (rt : DirectionsRoute) :
  actualDistanceMeters_of rt == sum_present_distances (legs rt).
Proof. unfold actualDistanceMeters_of. rewrite reduce_sum. ring. Qed.

Lemma sum_present_distances_none (ls : list DirectionsLeg) :
  (forall leg, In leg ls -> distance leg = None) ->
  sum_present_distances ls = 0.
Proof.
  induction ls as [|leg ls IH]; intros H; [reflexivity|].
  unfold sum_present_distances in *. cbn [flat_map].
  rewrite (H leg (or_introl eq_refl)). simpl.
  apply IH. intros l Hl. apply H. now right.
Qed.




(** ** The whole selection *)

(** C3.  A rejected promise and a promise fulfilled with [null] leave
    nothing in the collected set; whatever the outcomes of the candidates,
    the selection (Maps API loaded) returns and does not throw; and when
    every candidate has failed it returns [null].  With eight queries
    failing in different ways the result is [null]. *)
Theorem failed_candidates_are_absorbed :
  (forall results v,
      In v (validRoutes_of results)
      <-> In (PromiseFulfilledResult (Some v)) results)
  /\ (forall results d,
         (forall r, In r results ->
                    r = PromiseRejectedResult
                    \/ r = PromiseFulfilledResult None) ->
         select_route (validRoutes_of results) d = None)
  /\ (forall window g m startPoint d,
         google window = Some g -> maps g = Some m ->
         exists results,
           Promise_allSettled
             (candidatePromises (fan_out window m startPoint d))
           = Some results
           /\ fst (findOptimalLoopRoute window startPoint d)
              = returns (select_route (validRoutes_of results) d)
           /\ ((forall r, In r results ->
                          r = PromiseRejectedResult
                          \/ r = PromiseFulfilledResult None) ->
               fst (findOptimalLoopRoute window startPoint d)
               = returns None))
  /\ fst (findOptimalLoopRoute (window_of maps_failing) start0 5)
     = returns None.
Proof.
  split; [exact validRoutes_of_In|]. split; [|split].
  - intros results d H. now rewrite (validRoutes_of_all_failed results H).
  - intros window g m startPoint d Hg Hm.
    rewrite (window_loaded window g m Hg Hm).
    destruct (findOptimalLoopRoute_loaded m startPoint d)
      as (results & Hs & _ & Hr).
    exists results. split; [exact Hs|]. split; [exact Hr|].
    intros H. rewrite Hr. now rewrite (validRoutes_of_all_failed results H).
  - reflexivity.
Qed.

Lemma failed_candidates_are_absorbed_witness :
  exists results,
    Promise_allSettled
      (candidatePromises
         (fan_out (window_of maps_failing) maps_failing start0 5))
    = Some results
    /\ List.length results = 8%nat
    /\ fst (findOptimalLoopRoute (window_of maps_failing) start0 5)
       = returns None.
Proof.
  destruct (proj1 (proj2 (proj2 failed_candidates_are_absorbed))
              (window_of maps_failing) {| maps := Some maps_failing |}
              maps_failing start0 5 eq_refl eq_refl)
    as (results & Hs & _ & Hnone).
  exists results. split; [exact Hs|].
  vm_compute in Hs. injection Hs as <-.
  split; [reflexivity|]. apply Hnone.
  intros r Hr. simpl in Hr.
  repeat (destruct Hr as [<-|Hr]; [auto|]). destruct Hr.
Defined.

(** C6, as the specification states it, fails: with the Maps API loaded
    and its geometry library missing, no projection is available, and the
    selection returns [null] without having thrown. *)
Lemma missing_projection_is_not_a_failure :
  (forall angle dist,
      calculateIntermediatePoint (window_of maps_without_geometry)
        start0 angle dist = None)
  /\ findOptimalLoopRoute (window_of maps_without_geometry) start0 5
     = (returns None, [])
  /\ ~ exists message,
         fst (findOptimalLoopRoute (window_of maps_without_geometry) start0 5)
         = throws message.
Proof.
  split; [reflexivity|]. split; [reflexivity|].
  intros [message H]. discriminate H.
Qed.

(** C6, amended.  A missing start point and a desired distance of 0 or
    less are refused by the caller, [handleGenerateCourse], with an error
    message and without a query; when the Maps API is not loaded
    [findOptimalLoopRoute] throws before any query; when the Maps API is
    loaded without its geometry library every candidate is skipped: no
    query is issued and the result is [null]. *)
Theorem precondition_failures :
  (forall window st,
      App.userStartPoint st = None ->
      App.handleGenerateCourse window st
      = (App.set_error st
           (Some "Please set a start point on the map."%string), []))
  /\ (forall window st startPoint,
         App.userStartPoint st = Some startPoint ->
         App.desiredDistanceKm st <= 0 ->
         App.handleGenerateCourse window st
         = (App.set_error st
              (Some "Please enter a valid distance greater than 0 km."%string),
            []))
  /\ (forall window startPoint d,
         google window = None
         \/ (exists g, google window = Some g /\ maps g = None) ->
         findOptimalLoopRoute window startPoint d
         = (throws "Google Maps API not loaded.", []))
  /\ (forall m startPoint d,
         geometry m = None ->
         findOptimalLoopRoute (window_of m) startPoint d = (returns None, [])).
Proof.
  repeat split.
  - intros window st H. unfold App.handleGenerateCourse. now rewrite H.
  - intros window st startPoint H Hd. unfold App.handleGenerateCourse.
    rewrite H. apply Qle_bool_iff in Hd. now rewrite Hd.
  - intros window startPoint d [H|(g & Hg & Hm)]; unfold findOptimalLoopRoute.
    + now rewrite H.
    + now rewrite Hg, Hm.
  - intros m startPoint d Hgeo. unfold findOptimalLoopRoute. simpl.
    unfold fan_out, for_range.
    rewrite (candidate_loop_missing m startPoint _ Hgeo). reflexivity.
Qed.

Lemma precondition_failures_witness :
  snd (App.handleGenerateCourse (window_of maps_ok)
         {| App.userStartPoint := None;
            App.desiredDistanceKm := 5;
            App.generatedCourse := None;
            App.isLoading := false;
            App.error := None |}) = []
  /\ snd (App.handleGenerateCourse (window_of maps_ok)
            {| App.userStartPoint := Some start0;
               App.desiredDistanceKm := 0;
               App.generatedCourse := None;
               App.isLoading := false;
               App.error := None |}) = []
  /\ findOptimalLoopRoute window_not_loaded start0 5
     = (throws "Google Maps API not loaded.", [])
  /\ findOptimalLoopRoute (window_of maps_without_geometry) start0 5
     = (returns None, []).
Proof.
  destruct precondition_failures as (Hstart & Hdist & Hapi & Hgeo).
  split; [|split; [|split]].
  - rewrite Hstart; reflexivity.
  - rewrite (Hdist _ _ start0); [reflexivity | reflexivity | discriminate].
  - apply Hapi. now left.
  - apply Hgeo. reflexivity.
Defined.



(** C8.  The elevation query of a route that passed the guards asks for
    [min(128, p)] samples along its overview path of [p] points; every
    elevation query of a selection is of this kind. *)
Theorem elevation_query_sample_count :
  (forall m k res rt rest,
      routes res = rt :: rest ->
      ~ actualDistanceMeters_of rt == 0 ->
      (2 <= List.length (overview_path rt))%nat ->
      elevation_queries (snd (directions_callback m k (Some res) DS_OK))
      = [{| path := overview_path rt;
            samples := Nat.min 128 (List.length (overview_path rt)) |}])
  /\ (forall window startPoint d q,
         In q (elevation_queries
                 (snd (findOptimalLoopRoute window startPoint d))) ->
         samples q = Nat.min 128 (List.length (path q))
         /\ (2 <= List.length (path q))%nat).
Proof.
  split.
  - intros m k res rt rest Hr Hne Hlen.
    rewrite (directions_callback_queried m k res rt rest Hr Hne Hlen).
    cbn [snd].
    change (elevation_queries (ElevationQuery ?q :: ?evs))
      with (q :: elevation_queries evs).
    now rewrite (elevation_queries_warn _ (elevation_callback_inv _ _ _)).
  - intros window startPoint d q H.
    destruct (google window) as [g|] eqn:Hg;
      [|unfold findOptimalLoopRoute in H; rewrite Hg in H; destruct H].
    destruct (maps g) as [m|] eqn:Hm;
      [|unfold findOptimalLoopRoute in H; rewrite Hg, Hm in H; destruct H].
    rewrite (window_loaded window g m Hg Hm) in H.
    rewrite findOptimalLoopRoute_events in H.
    pose proof (proj2 (fan_out_ok (window_of m) m startPoint d)) as Hq.
    rewrite Forall_forall in Hq. exact (Hq q H).
Qed.

Lemma elevation_query_sample_count_witness :
  elevation_queries
    (snd (directions_callback maps_ok 0 (Some {| routes := [route0] |}) DS_OK))
  = [{| path := overview_path route0; samples := 3 |}]
  /\ elevation_queries
       (snd (directions_callback maps_ok 0
               (Some {| routes := [route_long] |}) DS_OK))
     = [{| path := overview_path route_long; samples := 128 |}].
Proof.
  split.
  - apply (proj1 elevation_query_sample_count maps_ok 0%nat
             {| routes := [route0] |} route0 []).
    + reflexivity.
    + vm_compute. discriminate.
    + simpl. lia.
  - apply (proj1 elevation_query_sample_count maps_ok 0%nat
             {| routes := [route_long] |} route_long []).
    + reflexivity.
    + vm_compute. discriminate.
    + apply Nat.leb_le. reflexivity.
Defined.

(** C10.  The summed distance of a route is the sum of the values of the
    legs that carry one, a leg without a distance adding 0; a route none
    of whose legs carries a distance sums to 0 and resolves its candidate
    to [null], without an elevation query. *)
Theorem legs_without_distance_add_zero :
  (forall rt, actualDistanceMeters_of rt == sum_present_distances (legs rt))
  /\ (forall m k res rt rest,
         routes res = rt :: rest ->
         (forall leg, In leg (legs rt) -> distance leg = None) ->
         actualDistanceMeters_of rt == 0
         /\ directions_callback m k (Some res) DS_OK = (fulfilled None, [])).
Proof.
  split; [exact actualDistanceMeters_sum|].
  intros m k res rt rest Hr Hnone.
  assert (actualDistanceMeters_of rt == 0) as Hz.
  { rewrite actualDistanceMeters_sum.
    now rewrite (sum_present_distances_none _ Hnone). }
  split; [exact Hz|].
  exact (directions_callback_discarded m k res rt rest Hr (or_introl Hz)).
Qed.

Lemma legs_without_distance_add_zero_witness :
  directions_callback maps_ok 0
    (Some {| routes := [route_without_distances] |}) DS_OK
  = (fulfilled None, []).
Proof.
  apply (proj2 legs_without_distance_add_zero maps_ok 0%nat
           {| routes := [route_without_distances] |}
           route_without_distances []).
  - reflexivity.
  - intros leg [<-|[<-|[]]]; reflexivity.
Defined.

(** * Properties of the binary64 arithmetic *)

(** ** Rounding keeps the sign

    The operations of primitive floats are specified by [SpecFloat]: the
    exact result is rounded by [binary_normalize].  Rounding a non-zero
    integer mantissa never gives a zero of the other sign, which is what
    the order of two numbers and the sign of their difference agree on. *)

Section Rounding.
Local Open Scope Z_scope.

Lemma digits2_pos_bounds (m : positive) :
  2 ^ (Zpos (digits2_pos m) - 1) <= Zpos m < 2 ^ Zpos (digits2_pos m).
Proof.
  induction m as [m IH|m IH|]; cbn [digits2_pos].
  - rewrite Pos2Z.inj_succ.
    replace (Z.succ (Zpos (digits2_pos m)) - 1) with (Z.succ (Zpos (digits2_pos m) - 1)) by lia.
    rewrite !Z.pow_succ_r by lia. lia.
  - rewrite Pos2Z.inj_succ.
    replace (Z.succ (Zpos (digits2_pos m)) - 1) with (Z.succ (Zpos (digits2_pos m) - 1)) by lia.
    rewrite !Z.pow_succ_r by lia. lia.
  - simpl. lia.
Qed.

Lemma shr_1_m (mrs : shr_record) :
  0 <= shr_m mrs -> shr_m (shr_1 mrs) = shr_m mrs / 2.
Proof.
  destruct mrs as [m r s]. cbn [shr_m]. intros H.
  destruct m as [|[p|p|]|p]; cbn [shr_1 shr_m]; try lia; try reflexivity.
  - apply Z.div_unique with 1; lia.
  - apply Z.div_unique with 0; lia.
Qed.

Lemma pow2_xO (p : positive) : 2 ^ Zpos p~0 = 2 ^ Zpos p * 2 ^ Zpos p.
Proof. rewrite <- Z.pow_add_r by lia. f_equal. lia. Qed.

Lemma pow2_xI (p : positive) : 2 ^ Zpos p~1 = 2 * (2 ^ Zpos p * 2 ^ Zpos p).
Proof.
  rewrite <- Z.pow_add_r by lia.
  rewrite <- (Z.pow_1_r 2) at 2. rewrite <- Z.pow_add_r by lia. f_equal. lia.
Qed.

Lemma iter_shr_1_m (p : positive) : forall mrs,
  0 <= shr_m mrs ->
  shr_m (iter_pos shr_1 p mrs) = shr_m mrs / 2 ^ Zpos p.
Proof.
  induction p as [p IH|p IH|]; intros mrs H; cbn [iter_pos].
  - assert (0 < 2 ^ Zpos p) as Hp by (apply Z.pow_pos_nonneg; lia).
    assert (0 <= shr_m (shr_1 mrs)) as H1
        by (rewrite shr_1_m by lia; apply Z.div_pos; lia).
    assert (0 <= shr_m (iter_pos shr_1 p (shr_1 mrs))) as H2
        by (rewrite IH by lia; apply Z.div_pos; lia).
    rewrite IH, IH, shr_1_m by lia.
    rewrite !Z.div_div by lia. f_equal.
    rewrite pow2_xI. ring.
  - assert (0 < 2 ^ Zpos p) as Hp by (apply Z.pow_pos_nonneg; lia).
    assert (0 <= shr_m (iter_pos shr_1 p mrs)) as H2
        by (rewrite IH by lia; apply Z.div_pos; lia).
    rewrite IH, IH by lia. rewrite Z.div_div by lia. f_equal.
    now rewrite pow2_xO.
  - rewrite shr_1_m by lia. reflexivity.
Qed.

Lemma emin_value : emin = -1074.
Proof. reflexivity. Qed.

Lemma shr_record_of_loc_m (m : Z) (l : SpecFloat.location) :
  shr_m (shr_record_of_loc m l) = m.
Proof. destruct l as [|[| |]]; reflexivity. Qed.

(** Rounding a positive integer at an exponent not below [emin] does not
    flush it to zero. *)
Lemma shr_fexp_positive (M : positive) (E : Z) (l : SpecFloat.location) :
  emin <= E ->
  0 < shr_m (fst (shr_fexp prec emax (Zpos M) E l))
  /\ emin <= snd (shr_fexp prec emax (Zpos M) E l).
Proof.
  intros HE. unfold shr_fexp, shr. cbn [Zdigits2].
  pose proof (digits2_pos_bounds M) as [Hlo Hhi].
  set (d := Zpos (digits2_pos M)) in *.
  assert (0 < d) as Hd by (subst d; lia).
  unfold fexp. rewrite emin_value in *. unfold prec.
  destruct (Z.max (d + E - 53) (-1074) - E) as [|p|p] eqn:N; cbn [fst snd];
    rewrite ?shr_record_of_loc_m; try lia.
  rewrite iter_shr_1_m by (rewrite shr_record_of_loc_m; lia).
  rewrite shr_record_of_loc_m. split; [|lia].
  assert (Zpos p = d - 53) as Hp by lia.
  assert (2 ^ Zpos p <= 2 ^ (d - 1)) as Hpow
      by (apply Z.pow_le_mono_r; lia).
  assert (0 < 2 ^ Zpos p) by (apply Z.pow_pos_nonneg; lia).
  apply Z.div_str_pos. lia.
Qed.

Lemma round_nearest_even_ge (m : Z) (l : SpecFloat.location) :
  m <= round_nearest_even m l.
Proof.
  destruct l as [|[| |]]; simpl; try lia. destruct (Z.even m); lia.
Qed.

Lemma binary_round_aux_signed (s : bool) (M : positive) (E : Z) (l : SpecFloat.location) :
  emin <= E ->
  signed_nonzero s (binary_round_aux prec emax s (Zpos M) E l).
Proof.
  intros HE. unfold binary_round_aux.
  pose proof (shr_fexp_positive M E l HE) as [H1 H1e].
  destruct (shr_fexp prec emax (Zpos M) E l) as [mrs' e']. cbn [fst snd] in *.
  pose proof (round_nearest_even_ge (shr_m mrs') (loc_of_shr_record mrs')) as Hr.
  destruct (round_nearest_even (shr_m mrs') (loc_of_shr_record mrs'))
    as [|M2|M2]; try lia.
  pose proof (shr_fexp_positive M2 e' loc_Exact H1e) as [H2 _].
  destruct (shr_fexp prec emax (Zpos M2) e' loc_Exact) as [mrs'' e''].
  cbn [fst] in H2.
  destruct (shr_m mrs'') as [|m|m]; try lia.
  destruct (e'' <=? emax - prec); reflexivity.
Qed.

Lemma fexp_ge_emin (e : Z) : emin <= fexp prec emax e.
Proof. unfold fexp. lia. Qed.

Lemma binary_round_signed (s : bool) (M : positive) (E : Z) :
  emin <= E ->
  signed_nonzero s (binary_round prec emax s M E).
Proof.
  intros HE. unfold binary_round, shl_align.
  destruct (fexp prec emax (Zpos (digits2_pos M) + E) - E) eqn:D;
    apply binary_round_aux_signed; try exact HE.
  apply fexp_ge_emin.
Qed.

Lemma pos_iter_xO (m d : positive) :
  Zpos (Pos.iter xO m d) = Zpos m * 2 ^ Zpos d.
Proof.
  induction d as [|d IH] using Pos.peano_ind.
  - simpl. lia.
  - rewrite Pos.iter_succ, Pos2Z.inj_xO, IH, Pos2Z.inj_succ, Z.pow_succ_r by lia.
    ring.
Qed.

Lemma shl_align_fst (m : positive) (e ez : Z) :
  ez <= e ->
  Zpos (fst (shl_align m e ez)) = Zpos m * 2 ^ (e - ez).
Proof.
  intros H. unfold shl_align.
  destruct (ez - e) as [|d|d] eqn:D; cbn [fst].
  - replace (e - ez) with 0 by lia. simpl. lia.
  - lia.
  - rewrite pos_iter_xO. f_equal. f_equal. lia.
Qed.

Lemma bounded_facts (m : positive) (e : Z) :
  bounded prec emax m e = true ->
  emin <= e
  /\ Zpos (digits2_pos m) <= prec
  /\ (emin < e -> Zpos (digits2_pos m) = prec).
Proof.
  unfold bounded, canonical_mantissa, fexp. rewrite emin_value. unfold prec.
  intros H. apply andb_true_iff in H. destruct H as [H _].
  apply Z.eqb_eq in H. lia.
Qed.

(** Aligned to the smaller exponent, the mantissas of two valid numbers
    compare as their exponents do, then as the mantissas themselves. *)
Lemma aligned_lt (mx my : positive) (ex ey : Z) :
  bounded prec emax mx ex = true ->
  bounded prec emax my ey = true ->
  ex < ey ->
  Zpos (fst (shl_align mx ex (Z.min ex ey)))
  < Zpos (fst (shl_align my ey (Z.min ex ey))).
Proof.
  intros Bx By H.
  destruct (bounded_facts _ _ Bx) as (Ex & Dx & _).
  destruct (bounded_facts _ _ By) as (Ey & _ & Dy).
  rewrite !shl_align_fst by lia.
  replace (Z.min ex ey) with ex by lia.
  replace (ex - ex) with 0 by lia. rewrite Z.pow_0_r, Z.mul_1_r.
  pose proof (digits2_pos_bounds mx) as [_ Hx].
  pose proof (digits2_pos_bounds my) as [Hy _].
  rewrite Dy in Hy by lia.
  assert (2 ^ Zpos (digits2_pos mx) <= 2 ^ prec) as Hp
      by (apply Z.pow_le_mono_r; lia).
  assert (2 ^ 1 <= 2 ^ (ey - ex)) as Hk by (apply Z.pow_le_mono_r; lia).
  rewrite Z.pow_1_r in Hk.
  assert (2 ^ prec = 2 ^ (prec - 1) * 2) as Hs
      by (unfold prec; reflexivity).
  assert (2 ^ (prec - 1) * 2 <= Zpos my * 2 ^ (ey - ex)) as Hm
      by (apply Z.mul_le_mono_nonneg; lia).
  lia.
Qed.

Lemma aligned_eq (mx my : positive) (e : Z) :
  Zpos (fst (shl_align mx e (Z.min e e))) = Zpos mx
  /\ Zpos (fst (shl_align my e (Z.min e e))) = Zpos my.
Proof.
  rewrite !shl_align_fst by lia. replace (e - Z.min e e) with 0 by lia.
  simpl. lia.
Qed.

Lemma binary_normalize_positive (M E : Z) :
  emin <= E ->
  SFltb (S754_zero false) (binary_normalize prec emax M E false) = (0 <? M).
Proof.
  intros HE. destruct M as [|M|M]; cbn [binary_normalize].
  - reflexivity.
  - pose proof (binary_round_signed false M E HE) as H.
    destruct (binary_round prec emax false M E) as [s|s| |s m e];
      simpl in H; try contradiction; subst; reflexivity.
  - pose proof (binary_round_signed true M E HE) as H.
    destruct (binary_round prec emax true M E) as [s|s| |s m e];
      simpl in H; try contradiction; subst; reflexivity.
Qed.

Lemma Pos_compare_cont_Eq (a b : positive) :
  Pos.compare_cont Eq a b = (Zpos a ?= Zpos b).
Proof. reflexivity. Qed.

(** The difference of two numbers is above zero exactly when the second is
    below the first. *)
Lemma SFsub_positive (x y : spec_float) :
  valid_binary x = true -> valid_binary y = true ->
  SFltb (S754_zero false) (SF64sub x y) = SFltb y x.
Proof.
  intros Vx Vy.
  destruct x as [sx|sx| |sx mx ex], y as [sy|sy| |sy my ey];
    try reflexivity;
    try (destruct sx; reflexivity);
    try (destruct sy; reflexivity);
    try (destruct sx, sy; reflexivity).
  cbn [valid_binary] in Vx, Vy.
  destruct (bounded_facts _ _ Vx) as (Ex & _ & _).
  destruct (bounded_facts _ _ Vy) as (Ey & _ & _).
  unfold SF64sub, SFsub.
  rewrite binary_normalize_positive by lia.
  unfold SFltb, SFcompare.
  destruct (Z.compare_spec ey ex) as [He|He|He].
  - subst ey. destruct (aligned_eq mx my ex) as [-> ->].
    rewrite Pos_compare_cont_Eq.
    destruct (Z.compare_spec (Zpos my) (Zpos mx)) as [Hm|Hm|Hm];
      destruct sx, sy; cbn [cond_Zopp CompOpp]; lia.
  - pose proof (aligned_lt my mx ey ex Vy Vx He) as H.
    rewrite (Z.min_comm ey ex) in H.
    destruct sx, sy; cbn [cond_Zopp]; lia.
  - pose proof (aligned_lt mx my ex ey Vx Vy He) as H.
    destruct sx, sy; cbn [cond_Zopp]; lia.
Qed.

End Rounding.

(** The test [x - y > 0] of a comparator decides [x > y], for all floats. *)
Lemma sub_positive (x y : float) : (0 <? x - y)%float = (y <? x)%float.
Proof.
  rewrite !ltb_spec, sub_spec.
  change (Prim2SF 0) with (S754_zero false).
  apply SFsub_positive; apply Prim2SF_valid.
Qed.

(** ** The order of floats *)

Ltac key_solve :=
  unfold key_lt; repeat split; intros;
  repeat match goal with
         | H : (_, _, _) = (_, _, _) |- _ =>
             apply pair_equal_spec in H; destruct H as [H ?];
             apply pair_equal_spec in H; destruct H as [? ?]
         end;
  first [ discriminate | congruence | lia | exfalso; lia | repeat f_equal; lia ].

Section KeyOrder.
Local Open Scope Z_scope.

Lemma SFcompare_key (x y : spec_float) :
  x <> S754_nan -> y <> S754_nan ->
  exists c,
    SFcompare x y = Some c
    /\ (c = Lt <-> key_lt (SFkey x) (SFkey y))
    /\ (c = Eq <-> SFkey x = SFkey y)
    /\ (c = Gt <-> key_lt (SFkey y) (SFkey x)).
Proof.
  intros Hx Hy.
  destruct x as [sx|[|]| |[|] mx ex], y as [sy|[|]| |[|] my ey];
    try congruence; cbn [SFcompare SFkey];
    try solve [eexists; split; [reflexivity|]; key_solve].
  - change (Pos.compare_cont Eq mx my) with (Zpos mx ?= Zpos my).
    destruct (Z.compare_spec ex ey);
      destruct (Z.compare_spec (Zpos mx) (Zpos my)); cbn [CompOpp];
      eexists; (split; [reflexivity|]); key_solve.
  - change (Pos.compare_cont Eq mx my) with (Zpos mx ?= Zpos my).
    destruct (Z.compare_spec ex ey);
      destruct (Z.compare_spec (Zpos mx) (Zpos my)); cbn [CompOpp];
      eexists; (split; [reflexivity|]); key_solve.
Qed.

End KeyOrder.

Section FloatOrder.
Local Open Scope float_scope.

Lemma is_nan_false (x : float) :
  is_nan x = false <-> Prim2SF x <> S754_nan.
Proof.
  unfold is_nan. rewrite eqb_spec, negb_false_iff. unfold SFeqb. split.
  - intros H E. rewrite E in H. discriminate H.
  - intros H. destruct (SFcompare_key _ _ H H) as (c & -> & _ & [_ Heq] & _).
    now rewrite Heq.
Qed.

(** The comparisons of two numbers, read on their keys. *)
Lemma float_order (x y : float) :
  is_nan x = false -> is_nan y = false ->
  ((x <? y) = true <-> key_lt (fkey x) (fkey y))
  /\ ((x =? y) = true <-> fkey x = fkey y)
  /\ ((x <=? y) = true <-> key_lt (fkey x) (fkey y) \/ fkey x = fkey y).
Proof.
  intros Hx Hy. apply is_nan_false in Hx, Hy.
  rewrite ltb_spec, eqb_spec, leb_spec. unfold SFltb, SFeqb, SFleb, fkey.
  destruct (SFcompare_key _ _ Hx Hy) as (c & -> & Hlt & Heq & Hgt).
  rewrite <- Hlt, <- Heq. clear Hlt Heq Hgt.
  destruct c; repeat split; intros; try discriminate; try reflexivity;
    try (left; reflexivity); try (right; reflexivity);
    destruct H; discriminate.
Qed.

Lemma compared_not_nan (x y : float) :
  (x <? y) = true \/ (x <=? y) = true \/ (x =? y) = true ->
  is_nan x = false /\ is_nan y = false.
Proof.
  rewrite ltb_spec, leb_spec, eqb_spec, !is_nan_false.
  unfold SFltb, SFleb, SFeqb. intros H.
  destruct (Prim2SF x), (Prim2SF y); simpl in H;
    try (split; discriminate);
    destruct H as [H|[H|H]]; discriminate H.
Qed.

Lemma positive_signed (x : float) :
  (0 <? x) = true <-> signed_nonzero false (Prim2SF x).
Proof.
  rewrite ltb_spec. change (Prim2SF 0) with (S754_zero false).
  destruct (Prim2SF x) as [s|[|]| |[|] m e]; simpl; split; intros H;
    try discriminate; try contradiction; reflexivity.
Qed.

(** Adding a number above zero to zero or to a number above zero gives a
    number above zero. *)
Lemma add_positive (g d : float) :
  g = 0 \/ (0 <? g) = true -> (0 <? d) = true -> (0 <? g + d) = true.
Proof.
  intros Hg Hd. apply positive_signed in Hd. apply positive_signed.
  rewrite add_spec.
  pose proof (Prim2SF_valid g) as Vg. pose proof (Prim2SF_valid d) as Vd.
  destruct Hg as [->|Hg].
  - change (Prim2SF 0) with (S754_zero false).
    destruct (Prim2SF d) as [s|s| |s m e]; simpl in *; try contradiction;
      assumption.
  - apply positive_signed in Hg.
    destruct (Prim2SF g) as [sg|sg| |sg mg eg]; simpl in Hg;
      try contradiction; subst sg;
      destruct (Prim2SF d) as [sd|sd| |sd md ed]; simpl in Hd;
      try contradiction; subst sd; try reflexivity.
    cbn [valid_binary] in Vg, Vd.
    destruct (bounded_facts _ _ Vg) as (Eg & _ & _).
    destruct (bounded_facts _ _ Vd) as (Ed & _ & _).
    unfold SF64add, SFadd. cbn [cond_Zopp].
    pose proof (binary_normalize_positive
                  (Zpos (fst (shl_align mg eg (Z.min eg ed)))
                   + Zpos (fst (shl_align md ed (Z.min eg ed))))
                  (Z.min eg ed)) as H.
    assert (SFltb (S754_zero false)
              (binary_normalize prec emax
                 (Zpos (fst (shl_align mg eg (Z.min eg ed)))
                  + Zpos (fst (shl_align md ed (Z.min eg ed))))
                 (Z.min eg ed) false) = true) as Hpos.
    { rewrite H by lia. apply Z.ltb_lt. lia. }
    clear H.
    destruct (binary_normalize prec emax _ _ false) as [s|[|]| |[|] m e];
      simpl in Hpos; try discriminate; reflexivity.
Qed.

(** Adding a zero leaves zero, and a number above zero, as it is. *)
Lemma add_zero (g z : float) (s : bool) :
  g = 0 \/ (0 <? g) = true -> Prim2SF z = S754_zero s -> g + z = g.
Proof.
  intros Hg Hz. destruct Hg as [->|Hg].
  - rewrite <- (SF2Prim_Prim2SF z), Hz. destruct s; reflexivity.
  - apply positive_signed in Hg. apply Prim2SF_inj.
    rewrite add_spec, Hz.
    destruct (Prim2SF g) as [sg|sg| |sg mg eg]; simpl in Hg;
      try contradiction; reflexivity.
Qed.

Lemma is_finite_SF (x : float) :
  is_finite x = true -> SF_is_finite (Prim2SF x).
Proof.
  unfold is_finite, is_nan, is_infinity.
  rewrite !eqb_spec, abs_spec.
  change (Prim2SF infinity) with (S754_infinity false).
  destruct (Prim2SF x) as [s|[|]| |s m e]; intros H; try exact I;
    discriminate H.
Qed.

(** The difference of two equal finite numbers is a zero. *)
Lemma sub_equal_zero (a b : float) :
  is_finite a = true -> is_finite b = true -> (a =? b) = true ->
  exists s, Prim2SF (b - a) = S754_zero s.
Proof.
  intros Fa Fb E.
  destruct (compared_not_nan a b (or_intror (or_intror E))) as [Na Nb].
  apply (float_order a b Na Nb) in E. unfold fkey in E.
  apply is_finite_SF in Fa, Fb. rewrite sub_spec.
  destruct (Prim2SF a) as [sa|sa| |sa ma ea]; simpl in Fa; try contradiction;
    destruct (Prim2SF b) as [sb|sb| |sb mb eb]; simpl in Fb;
    try contradiction.
  - destruct sa, sb; eexists; reflexivity.
  - destruct sb; simpl in E; discriminate E.
  - destruct sa; simpl in E; discriminate E.
  - assert (sa = sb /\ ea = eb /\ ma = mb) as (-> & -> & ->).
    { destruct sa, sb; simpl in E;
        apply pair_equal_spec in E; destruct E as [E E3];
        apply pair_equal_spec in E; destruct E as [E1 E2];
        try discriminate; repeat split; try lia; congruence. }
    exists false. unfold SF64sub, SFsub. rewrite Z.sub_diag. reflexivity.
Qed.

End FloatOrder.

Lemma key_eq_iff (a b : Z * Z * Z) : a = b <-> key_eq a b.
Proof.
  destruct a as [[a1 a2] a3], b as [[b1 b2] b3]. unfold key_eq.
  rewrite !pair_equal_spec. tauto.
Qed.

Section FloatOrderOnKeys.
Local Open Scope float_scope.
Variables x y : float.
Hypothesis Hx : is_nan x = false.
Hypothesis Hy : is_nan y = false.

Lemma ltb_true_key : (x <? y) = true <-> key_lt (fkey x) (fkey y).
Proof. apply (float_order x y Hx Hy). Qed.

Lemma ltb_false_key : (x <? y) = false <-> ~ key_lt (fkey x) (fkey y).
Proof. rewrite <- ltb_true_key. symmetry. apply not_true_iff_false. Qed.

Lemma eqb_true_key : (x =? y) = true <-> key_eq (fkey x) (fkey y).
Proof. rewrite <- key_eq_iff. apply (float_order x y Hx Hy). Qed.

Lemma eqb_false_key : (x =? y) = false <-> ~ key_eq (fkey x) (fkey y).
Proof. rewrite <- eqb_true_key. symmetry. apply not_true_iff_false. Qed.

Lemma leb_true_key :
  (x <=? y) = true
  <-> key_lt (fkey x) (fkey y) \/ key_eq (fkey x) (fkey y).
Proof. rewrite <- key_eq_iff. apply (float_order x y Hx Hy). Qed.

End FloatOrderOnKeys.

(** Turns the comparisons of floats known not to be [NaN] into linear
    integer arithmetic on their keys. *)
Ltac order_on_keys :=
  rewrite ?ltb_true_key, ?ltb_false_key, ?eqb_true_key, ?eqb_false_key,
    ?leb_true_key in * by assumption;
  repeat match goal with
         | |- context [fkey ?x] => destruct (fkey x) as [[? ?] ?]
         | _ : context [fkey ?x] |- _ => destruct (fkey x) as [[? ?] ?]
         end;
  unfold key_lt, key_eq in *; lia.

Section FloatOrderLaws.
Local Open Scope float_scope.

Lemma ltb_leb (x y : float) : (x <? y) = true -> (x <=? y) = true.
Proof.
  intros H. destruct (compared_not_nan x y (or_introl H)) as [Hx Hy].
  order_on_keys.
Qed.

Lemma leb_total (x y : float) :
  is_nan x = false -> is_nan y = false ->
  (y <? x) = false -> (x <=? y) = true.
Proof. intros Hx Hy H. order_on_keys. Qed.

Lemma leb_ltb_false (x y : float) : (x <=? y) = true -> (y <? x) = false.
Proof.
  intros H.
  destruct (compared_not_nan x y (or_intror (or_introl H))) as [Hx Hy].
  order_on_keys.
Qed.

End FloatOrderLaws.

(** ** Sorting with a comparator *)

Section SortFacts64.
Local Open Scope float_scope.
Context {A : Type} (compareFn : A -> A -> float).

Lemma sort_insert_perm64 (x : A) (l : list A) :
  Permutation (x :: l) (Binary64.sort_insert compareFn x l).
Proof.
  induction l as [|y l IH]; simpl; [reflexivity|].
  destruct (0 <? compareFn x y); [|reflexivity].
  rewrite perm_swap. now constructor.
Qed.

Lemma Array_sort_perm64 (l : list A) :
  Permutation l (Binary64.Array_sort compareFn l).
Proof.
  induction l as [|x l IH]; simpl; [reflexivity|].
  rewrite <- sort_insert_perm64. now constructor.
Qed.

Lemma Array_sort_nonempty64 (l : list A) :
  l <> [] -> Binary64.Array_sort compareFn l <> [].
Proof.
  intros Hl Hs. pose proof (Array_sort_perm64 l) as P. rewrite Hs in P.
  apply Permutation_sym, Permutation_nil in P. contradiction.
Qed.

Lemma Array_sort_first_In (l : list A) (h : A) :
  first_or_null (Binary64.Array_sort compareFn l) = Some h -> In h l.
Proof.
  intros H. apply (Permutation_in h (Permutation_sym (Array_sort_perm64 l))).
  destruct (Binary64.Array_sort compareFn l); [discriminate H|].
  injection H as <-. now left.
Qed.

End SortFacts64.

(** ** Sorting with a comparator on two keys *)

Section TwoKeys.
Local Open Scope float_scope.
Context {A : Type} (key1 key2 : A -> float).

Lemma compare_keys_after (x y : A) :
  Binary64.keys_ok key1 key2 x -> Binary64.keys_ok key1 key2 y ->
  (0 <? Binary64.compare_keys key1 key2 x y) = true ->
  Binary64.keys_le key1 key2 y x.
Proof.
  intros [X1 X2] [Y1 Y2]. unfold Binary64.compare_keys, Binary64.keys_le.
  destruct (key1 x =? key1 y) eqn:E; cbn [negb]; rewrite sub_positive;
    intros H.
  - right. split; order_on_keys.
  - left. exact H.
Qed.

Lemma compare_keys_not_after (x y : A) :
  Binary64.keys_ok key1 key2 x -> Binary64.keys_ok key1 key2 y ->
  (0 <? Binary64.compare_keys key1 key2 x y) = false ->
  Binary64.keys_le key1 key2 x y.
Proof.
  intros [X1 X2] [Y1 Y2]. unfold Binary64.compare_keys, Binary64.keys_le.
  destruct (key1 x =? key1 y) eqn:E; cbn [negb]; rewrite sub_positive;
    intros H.
  - right. split; [reflexivity | order_on_keys].
  - left. order_on_keys.
Qed.

Lemma keys_le_refl (x : A) :
  Binary64.keys_ok key1 key2 x -> Binary64.keys_le key1 key2 x x.
Proof.
  intros [X1 X2]. unfold Binary64.keys_le. right. split; order_on_keys.
Qed.

Lemma keys_le_trans (x y z : A) :
  Binary64.keys_ok key1 key2 x -> Binary64.keys_ok key1 key2 y ->
  Binary64.keys_ok key1 key2 z ->
  Binary64.keys_le key1 key2 x y -> Binary64.keys_le key1 key2 y z ->
  Binary64.keys_le key1 key2 x z.
Proof.
  intros [X1 X2] [Y1 Y2] [Z1 Z2]. unfold Binary64.keys_le.
  intros H1 H2. order_on_keys.
Qed.

(** "Before or level with", key by key. *)
Lemma keys_le_reading (x y : A) :
  Binary64.keys_ok key1 key2 x -> Binary64.keys_ok key1 key2 y ->
  Binary64.keys_le key1 key2 x y ->
  (key1 x <=? key1 y) = true
  /\ ((key1 y =? key1 x) = true -> (key2 x <=? key2 y) = true).
Proof.
  intros [X1 X2] [Y1 Y2]. unfold Binary64.keys_le. intros H.
  split; [|intros E]; order_on_keys.
Qed.

(** The first element of the sorted array is before, or level with, every
    element. *)
Lemma Array_sort_first (l : list A) (h : A) :
  (forall c, In c l -> Binary64.keys_ok key1 key2 c) ->
  first_or_null (Binary64.Array_sort (Binary64.compare_keys key1 key2) l)
  = Some h ->
  In h l /\ forall c, In c l -> Binary64.keys_le key1 key2 h c.
Proof.
  revert h. induction l as [|x l IH]; intros h Hok Hh; [discriminate Hh|].
  cbn [Binary64.Array_sort fold_right] in Hh.
  fold (Binary64.Array_sort (Binary64.compare_keys key1 key2) l) in Hh.
  assert (Hokl : forall c, In c l -> Binary64.keys_ok key1 key2 c)
    by (intros c Hc; apply Hok; now right).
  assert (Hx : Binary64.keys_ok key1 key2 x) by (apply Hok; now left).
  destruct (Binary64.Array_sort (Binary64.compare_keys key1 key2) l)
    as [|y s] eqn:Es.
  - pose proof (Array_sort_perm64 (Binary64.compare_keys key1 key2) l) as P.
    rewrite Es in P.
    apply Permutation_sym, Permutation_nil in P. subst l.
    cbn in Hh. injection Hh as <-. split; [now left|].
    intros c [<-|[]]. now apply keys_le_refl.
  - destruct (IH y Hokl eq_refl) as [Hy Hmin].
    assert (Hyok : Binary64.keys_ok key1 key2 y) by now apply Hokl.
    cbn [Binary64.sort_insert] in Hh.
    destruct (0 <? Binary64.compare_keys key1 key2 x y) eqn:Hc;
      cbn [first_or_null] in Hh; injection Hh as <-.
    + split; [now right|]. intros c [<-|Hc'].
      * now apply compare_keys_after.
      * now apply Hmin.
    + split; [now left|]. intros c [<-|Hc'].
      * now apply keys_le_refl.
      * apply (keys_le_trans x y c); auto.
        now apply compare_keys_not_after.
Qed.

End TwoKeys.

(** ** Elevation gain in binary64 *)

Section ElevationGain64.
Local Open Scope float_scope.
Import Binary64.

Lemma rise_cases (a b : float) :
  ((0 <? b - a) = true /\ rise a b = b - a)
  \/ ((0 <? b - a) = false /\ rise a b = 0).
Proof. unfold rise. destruct (0 <? b - a); [left|right]; now split. Qed.

Lemma gain_step_rise (gain a b : float) :
  gain_invariant gain ->
  (if 0 <? b - a then gain + (b - a) else gain) = gain + rise a b
  /\ gain_invariant (gain + rise a b).
Proof.
  intros Hg. destruct (rise_cases a b) as [[Hd ->]|[Hd ->]]; rewrite Hd.
  - split; [reflexivity|]. right. now apply add_positive.
  - rewrite (add_zero gain 0 false Hg eq_refl). now split.
Qed.

Lemma sum_of_rises_invariant (es : list float) : forall gain,
  gain_invariant gain -> gain_invariant (sum_of_rises gain es).
Proof.
  induction es as [|a [|b l] IH]; intros gain Hg; try exact Hg.
  cbn [sum_of_rises]. apply IH. now apply gain_step_rise.
Qed.

(** The loop, entered at index [i] with [n] iterations left, adds the
    rises of the samples from index [i - 1] on. *)
Lemma elevation_loop_spec64 (elevations : list ElevationResult) :
  forall (n i : nat) (gain : float),
    (1 <= i)%nat -> (i + n = List.length elevations)%nat ->
    gain_invariant gain ->
    for_loop n i
      (fun i acc => g <- acc ;; elevation_step elevations i g)
      (Some gain)
    = Some (sum_of_rises gain
              (map elevation (skipn (i - 1) elevations))).
Proof.
  induction n as [|n IH]; intros i gain Hi Hlen Hg.
  - destruct (nth_error_in_range elevations (i - 1)) as [x Hx]; [lia|].
    rewrite (skipn_nth_error_cons _ _ _ Hx).
    replace (S (i - 1)) with (List.length elevations) by lia.
    rewrite skipn_all. reflexivity.
  - destruct (nth_error_in_range elevations i) as [cur Hcur]; [lia|].
    destruct (nth_error_in_range elevations (i - 1)) as [prev Hprev]; [lia|].
    assert (Hstep : elevation_step elevations i gain
                    = Some (gain + rise (elevation prev) (elevation cur))).
    { unfold elevation_step. rewrite Hcur, Hprev. cbn [bind].
      f_equal. now apply gain_step_rise. }
    cbn [for_loop bind]. rewrite Hstep.
    rewrite IH; [| lia | lia | now apply gain_step_rise].
    rewrite (skipn_nth_error_cons _ _ _ Hprev).
    replace (S (i - 1)) with i by lia.
    replace (S i - 1)%nat with i by lia.
    rewrite (skipn_nth_error_cons _ _ _ Hcur).
    reflexivity.
Qed.

Lemma calculateCumulativeElevation_spec64
    (elevations : list ElevationResult) :
  calculateCumulativeElevation elevations
  = Some (sum_of_rises 0 (map elevation elevations)).
Proof.
  unfold calculateCumulativeElevation, for_range.
  destruct elevations as [|e0 rest] eqn:E; [reflexivity|].
  rewrite <- E.
  rewrite (elevation_loop_spec64 elevations); [| lia | | now left].
  - reflexivity.
  - subst; simpl; lia.
Qed.

Lemma sum_of_rises_never_rises (es : list float) : forall gain,
  gain_invariant gain -> never_rises es -> sum_of_rises gain es = gain.
Proof.
  induction es as [|a [|b l] IH]; intros gain Hg Hs; try reflexivity.
  cbn [sum_of_rises].
  inversion Hs as [|? ? Hs' Hhd]; subst. inversion Hhd as [|? ? Hab]; subst.
  assert (Hr : rise a b = 0).
  { unfold rise. rewrite sub_positive, (leb_ltb_false _ _ Hab). reflexivity. }
  rewrite Hr, (add_zero gain 0 false Hg eq_refl). now apply IH.
Qed.

Lemma sum_of_rises_never_falls (es : list float) : forall gain,
  gain_invariant gain -> never_falls es ->
  Forall (fun e => is_finite e = true) es ->
  sum_of_rises gain es = sum_of_differences gain es.
Proof.
  induction es as [|a [|b l] IH]; intros gain Hg Hs Hf; try reflexivity.
  cbn [sum_of_rises sum_of_differences].
  inversion Hs as [|? ? Hs' Hhd]; subst. inversion Hhd as [|? ? Hab]; subst.
  inversion Hf as [|? ? Fa Hf']; subst. inversion Hf' as [|? ? Fb _]; subst.
  destruct (gain_step_rise gain a b Hg) as [_ Hg'].
  assert (Hsame : gain + rise a b = gain + (b - a)).
  { destruct (rise_cases a b) as [[_ ->]|[Hd ->]]; [reflexivity|].
    rewrite sub_positive in Hd.
    destruct (compared_not_nan a b (or_intror (or_introl Hab))) as [Na Nb].
    assert (E : (a =? b) = true) by order_on_keys.
    destruct (sub_equal_zero a b Fa Fb E) as [s Hz].
    now rewrite (add_zero gain 0 false Hg eq_refl), (add_zero gain _ s Hg Hz). }
  rewrite <- Hsame. now apply IH.
Qed.

Lemma zero_add_positive (x : float) : (0 <? x) = true -> 0 + x = x.
Proof.
  intros H. apply positive_signed in H. apply Prim2SF_inj.
  rewrite add_spec. change (Prim2SF 0) with (S754_zero false).
  destruct (Prim2SF x) as [s|s| |s m e]; simpl in H; try contradiction;
    reflexivity.
Qed.

(** C4, as the specification states it, fails on a rising sequence: the
    gain of the samples 0, 0.2, 0.9 is 0.8999999999999999, below
    [last - first] both as the code would compute it (0.9) and in exact
    arithmetic. *)
Lemma ascending_gain_is_not_last_minus_first :
  never_falls [0; 0.2; 0.9]
  /\ calculateCumulativeElevation [sample 0; sample 0.2; sample 0.9]
     = Some 0.8999999999999999
  /\ (0.8999999999999999 <? 0.9 - 0) = true
  /\ (exact_value 0.8999999999999999
      < exact_value 0.9 - exact_value 0)%Q.
Proof.
  split; [|split; [|split]].
  - repeat constructor.
  - vm_compute. reflexivity.
  - vm_compute. reflexivity.
  - apply Qlt_alt. vm_compute. reflexivity.
Qed.

(** C4, amended.  The gain is the sum over the consecutive pairs of
    [max(0, next - previous)], accumulated from the left in binary64, every
    subtraction and addition rounded.  A sequence that never rises has
    gain 0.  On a sequence of finite samples that never falls the gain is
    the rounded running sum of the consecutive differences; for two
    samples, the second above the first, that is [last - first]. *)
Theorem cumulative_elevation_is_rounded_sum_of_rises
    (elevations : list ElevationResult) :
  calculateCumulativeElevation elevations
  = Some (sum_of_rises 0 (map elevation elevations))
  /\ (never_rises (map elevation elevations) ->
      calculateCumulativeElevation elevations = Some 0)
  /\ (never_falls (map elevation elevations) ->
      Forall (fun e => is_finite e = true) (map elevation elevations) ->
      calculateCumulativeElevation elevations
      = Some (sum_of_differences 0 (map elevation elevations)))
  /\ (forall first last,
         elevations = [sample first; sample last] ->
         (first <? last) = true ->
         calculateCumulativeElevation elevations = Some (last - first)).
Proof.
  rewrite calculateCumulativeElevation_spec64.
  split; [reflexivity|]. split; [|split].
  - intros H. f_equal. apply sum_of_rises_never_rises; [now left | exact H].
  - intros H Hf. f_equal.
    apply sum_of_rises_never_falls; [now left | exact H | exact Hf].
  - intros first last -> H. cbn [map elevation sample sum_of_rises].
    f_equal. unfold rise. rewrite sub_positive, H.
    apply zero_add_positive. now rewrite sub_positive.
Qed.

Lemma cumulative_elevation_is_rounded_sum_of_rises_witness :
  calculateCumulativeElevation [sample 30; sample 20; sample 20; sample 5]
  = Some 0
  /\ calculateCumulativeElevation [sample 0; sample 0.2; sample 0.9]
     = Some (0 + (0.2 - 0) + (0.9 - 0.2))
  /\ calculateCumulativeElevation [sample 10; sample 12.5]
     = Some (12.5 - 10).
Proof.
  split; [|split].
  - apply (cumulative_elevation_is_rounded_sum_of_rises
             [sample 30; sample 20; sample 20; sample 5]).
    repeat constructor.
  - apply (cumulative_elevation_is_rounded_sum_of_rises
             [sample 0; sample 0.2; sample 0.9]);
      repeat constructor.
  - apply (cumulative_elevation_is_rounded_sum_of_rises
             [sample 10; sample 12.5]); reflexivity.
Defined.

End ElevationGain64.

(** ** The selector in binary64 *)

Section Selector64.
Local Open Scope float_scope.
Import Binary64.

Lemma select_route_none64 (validRoutes : list OptimalRouteData) (d : float) :
  select_route validRoutes d = None <-> validRoutes = [].
Proof.
  split; [|now intros ->].
  unfold select_route. destruct validRoutes as [|v vs]; [reflexivity|].
  change (List.length (v :: vs) =? 0)%nat with false. cbv iota.
  intros H. exfalso.
  destruct (0 <? List.length (filter (in_tolerance d) (v :: vs)))%nat eqn:L.
  - apply Nat.ltb_lt in L.
    destruct (first_or_null_some
                (Array_sort (compare_in_tolerance d)
                   (filter (in_tolerance d) (v :: vs)))) as [r Hr].
    + apply Array_sort_nonempty64. intros E. rewrite E in L. simpl in L. lia.
    + congruence.
  - destruct (first_or_null_some
                (Array_sort (compare_closest d) (v :: vs))) as [r Hr].
    + apply Array_sort_nonempty64. discriminate.
    + congruence.
Qed.

(** With a candidate in the computed band, the result is the first of the
    candidates of the band, sorted on gain, then on distance error. *)
Lemma select_route_in_band (validRoutes : list OptimalRouteData) (d : float) :
  (exists c, In c validRoutes /\ in_tolerance d c = true) ->
  select_route validRoutes d
  = first_or_null
      (Array_sort (compare_keys elevationGainM (distDiff d))
         (filter (in_tolerance d) validRoutes)).
Proof.
  intros (c0 & Hc0 & Htol0).
  assert (Hin0 : In c0 (filter (in_tolerance d) validRoutes))
    by (apply filter_In; now split).
  unfold select_route.
  destruct validRoutes as [|v vs]; [contradiction|].
  change (List.length (v :: vs) =? 0)%nat with false. cbv iota.
  assert (Hlen : (0 <? List.length (filter (in_tolerance d) (v :: vs)))%nat
                 = true).
  { apply Nat.ltb_lt.
    destruct (filter (in_tolerance d) (v :: vs)); [inversion Hin0 | simpl; lia]. }
  cbv zeta. rewrite Hlen. reflexivity.
Qed.

(** With no candidate in the computed band, the result is the first of all
    candidates, sorted on distance error, then on gain. *)
Lemma select_route_out_of_band (validRoutes : list OptimalRouteData)
    (d : float) :
  validRoutes <> [] ->
  (forall c, In c validRoutes -> in_tolerance d c = false) ->
  select_route validRoutes d
  = first_or_null
      (Array_sort (compare_keys (distDiff d) elevationGainM) validRoutes).
Proof.
  intros Hne Hout.
  assert (Hnil : filter (in_tolerance d) validRoutes = []).
  { destruct (filter (in_tolerance d) validRoutes) as [|c l] eqn:E;
      [reflexivity|].
    assert (Hc : In c (filter (in_tolerance d) validRoutes))
      by (rewrite E; now left).
    apply filter_In in Hc. destruct Hc as [Hc Ht].
    rewrite (Hout c Hc) in Ht. discriminate Ht. }
  unfold select_route.
  destruct validRoutes as [|v vs]; [congruence|].
  change (List.length (v :: vs) =? 0)%nat with false. cbv iota zeta.
  rewrite Hnil. reflexivity.
Qed.

(** The first of the band: least on gain, then on computed error. *)
Lemma in_band_least (validRoutes : list OptimalRouteData) (d : float) :
  (exists c, In c validRoutes /\ in_tolerance d c = true) ->
  (forall c, In c validRoutes -> in_tolerance d c = true ->
             keys_are_numbers d c) ->
  exists r,
    select_route validRoutes d = Some r
    /\ In r validRoutes
    /\ in_tolerance d r = true
    /\ forall c, In c validRoutes -> in_tolerance d c = true ->
         keys_le elevationGainM (distDiff d) r c.
Proof.
  intros Hex Hnum.
  rewrite (select_route_in_band validRoutes d Hex).
  destruct Hex as (c0 & Hc0 & Htol0).
  assert (Hok : forall c, In c (filter (in_tolerance d) validRoutes) ->
                          keys_are_numbers d c).
  { intros c Hc. apply filter_In in Hc. now apply Hnum. }
  destruct (first_or_null_some
              (Array_sort (compare_keys elevationGainM (distDiff d))
                 (filter (in_tolerance d) validRoutes))) as [r Hr].
  { apply Array_sort_nonempty64. intros E.
    assert (Hin0 : In c0 (filter (in_tolerance d) validRoutes))
      by (apply filter_In; now split).
    rewrite E in Hin0. inversion Hin0. }
  exists r. split; [exact Hr|].
  destruct (Array_sort_first elevationGainM (distDiff d) _ r Hok Hr)
    as [Hin Hmin].
  apply filter_In in Hin. destruct Hin as [Hin Htol].
  split; [exact Hin|]. split; [exact Htol|].
  intros c Hc Hct. apply Hmin. apply filter_In. now split.
Qed.

(** The first of all candidates: least on computed error, then on gain. *)
Lemma out_of_band_least (validRoutes : list OptimalRouteData) (d : float) :
  validRoutes <> [] ->
  (forall c, In c validRoutes -> in_tolerance d c = false) ->
  (forall c, In c validRoutes -> keys_are_numbers d c) ->
  exists r,
    select_route validRoutes d = Some r
    /\ In r validRoutes
    /\ forall c, In c validRoutes ->
         keys_le (distDiff d) elevationGainM r c.
Proof.
  intros Hne Hout Hnum.
  rewrite (select_route_out_of_band validRoutes d Hne Hout).
  assert (Hok : forall c, In c validRoutes ->
                  is_nan (distDiff d c) = false
                  /\ is_nan (elevationGainM c) = false).
  { intros c Hc. destruct (Hnum c Hc). now split. }
  destruct (first_or_null_some
              (Array_sort (compare_keys (distDiff d) elevationGainM)
                 validRoutes)) as [r Hr].
  { now apply Array_sort_nonempty64. }
  exists r. split; [exact Hr|].
  exact (Array_sort_first (distDiff d) elevationGainM _ r Hok Hr).
Qed.

(** C1, as the specification states it, fails where the rounded band is
    wider than the exact one: for d = 2.4 the code computes the upper limit
    [2.4 * 1.25] as 3, above the exact product.  Of the candidates of 3.0 km
    (gain 50) and 2.4 km (gain 60), only the second lies in the exact band,
    and the selector returns the first. *)
Lemma computed_band_admits_route_outside_exact_band :
  within_exact_band 2.4 (candidate 2400 60)
  /\ ~ within_exact_band 2.4 (candidate 3000 50)
  /\ in_tolerance 2.4 (candidate 3000 50) = true
  /\ select_route [candidate 3000 50; candidate 2400 60] 2.4
     = Some (candidate 3000 50).
Proof.
  split; [|split; [|split]].
  - split; apply Qle_bool_iff; vm_compute; reflexivity.
  - intros [_ H]. apply Qle_bool_iff in H. vm_compute in H. discriminate H.
  - vm_compute. reflexivity.
  - vm_compute. reflexivity.
Qed.

(** C1, amended.  When some collected candidate lies in the band as the
    code computes it in binary64, [d * (1 - 0.25) <= distanceKm] and
    [distanceKm <= d * (1 + 0.25)] with rounded products, and the sort keys
    of the candidates of that band are numbers, the selector returns a
    candidate of that band whose elevation gain is the least in the band
    and, among the candidates of the band with that gain, whose computed
    distance error [|distanceKm - d|] is the least.  For d = 5 and
    A(5.0, 50), B(4.0, 10), C(6.5, 5) it returns B. *)
Theorem select_route_in_computed_band :
  (forall (validRoutes : list OptimalRouteData) (d : float),
      (exists c, In c validRoutes /\ in_tolerance d c = true) ->
      (forall c, In c validRoutes -> in_tolerance d c = true ->
                 keys_are_numbers d c) ->
      exists r,
        select_route validRoutes d = Some r
        /\ In r validRoutes
        /\ in_tolerance d r = true
        /\ forall c, In c validRoutes -> in_tolerance d c = true ->
             (elevationGainM r <=? elevationGainM c) = true
             /\ ((elevationGainM c =? elevationGainM r) = true ->
                 (distDiff d r <=? distDiff d c) = true))
  /\ select_route [cand_A; cand_B; cand_C] 5 = Some cand_B.
Proof.
  split; [|vm_compute; reflexivity].
  intros validRoutes d Hex Hnum.
  destruct (in_band_least validRoutes d Hex Hnum)
    as (r & Hr & Hin & Htol & Hmin).
  exists r. split; [exact Hr|]. split; [exact Hin|]. split; [exact Htol|].
  intros c Hc Hct.
  apply (keys_le_reading elevationGainM (distDiff d) r c);
    [now apply Hnum | now apply Hnum | now apply Hmin].
Qed.

Lemma select_route_in_computed_band_witness :
  exists r,
    select_route [cand_C; cand_A; cand_B] 5 = Some r
    /\ In r [cand_C; cand_A; cand_B]
    /\ in_tolerance 5 r = true
    /\ forall c, In c [cand_C; cand_A; cand_B] -> in_tolerance 5 c = true ->
         (elevationGainM r <=? elevationGainM c) = true
         /\ ((elevationGainM c =? elevationGainM r) = true ->
             (distDiff 5 r <=? distDiff 5 c) = true).
Proof.
  apply (proj1 select_route_in_computed_band [cand_C; cand_A; cand_B] 5).
  - exists cand_A. split; [right; left; reflexivity | reflexivity].
  - intros c [<-|[<-|[<-|[]]]] _; split; reflexivity.
Defined.

(** C2, as the specification states it, fails where two different distance
    errors round to the same float: for d = 5 the candidates of 1.01 km
    (gain 100) and 8.99 km (gain 1) both have the computed error
    3.9900000000000002, the tie goes to the lower gain, and the selector
    returns the 8.99 km candidate, whose exact error is the larger. *)
Lemma rounded_errors_tie_on_unequal_errors :
  in_tolerance 5 (candidate 1010 100) = false
  /\ in_tolerance 5 (candidate 8990 1) = false
  /\ ~ within_exact_band 5 (candidate 1010 100)
  /\ ~ within_exact_band 5 (candidate 8990 1)
  /\ distDiff 5 (candidate 1010 100) = 3.9900000000000002
  /\ distDiff 5 (candidate 8990 1) = 3.9900000000000002
  /\ select_route [candidate 1010 100; candidate 8990 1] 5
     = Some (candidate 8990 1)
  /\ (exact_distance_error 5 (candidate 1010 100)
      < exact_distance_error 5 (candidate 8990 1))%Q.
Proof.
  repeat split; try (vm_compute; reflexivity).
  - intros [H _]. apply Qle_bool_iff in H. vm_compute in H. discriminate H.
  - intros [_ H]. apply Qle_bool_iff in H. vm_compute in H. discriminate H.
Qed.

(** C2, amended.  When no collected candidate lies in the band as the code
    computes it and the sort keys of the candidates are numbers, the
    selector returns a candidate whose computed distance error, the rounded
    [|distanceKm - d|], is the least of all and, among the candidates with
    that computed error, whose elevation gain is the least.  For d = 5 and
    D(7.0, 20), E(8.0, 5) it returns D. *)
Theorem select_route_nearest_computed :
  (forall (validRoutes : list OptimalRouteData) (d : float),
      validRoutes <> [] ->
      (forall c, In c validRoutes -> in_tolerance d c = false) ->
      (forall c, In c validRoutes -> keys_are_numbers d c) ->
      exists r,
        select_route validRoutes d = Some r
        /\ In r validRoutes
        /\ forall c, In c validRoutes ->
             (distDiff d r <=? distDiff d c) = true
             /\ ((distDiff d c =? distDiff d r) = true ->
                 (elevationGainM r <=? elevationGainM c) = true))
  /\ select_route [cand_D; cand_E] 5 = Some cand_D.
Proof.
  split; [|vm_compute; reflexivity].
  intros validRoutes d Hne Hout Hnum.
  destruct (out_of_band_least validRoutes d Hne Hout Hnum)
    as (r & Hr & Hin & Hmin).
  assert (Hok : forall c, In c validRoutes ->
                  is_nan (distDiff d c) = false
                  /\ is_nan (elevationGainM c) = false).
  { intros c Hc. destruct (Hnum c Hc). now split. }
  exists r. split; [exact Hr|]. split; [exact Hin|].
  intros c Hc.
  apply (keys_le_reading (distDiff d) elevationGainM r c);
    [now apply Hok | now apply Hok | now apply Hmin].
Qed.

Lemma select_route_nearest_computed_witness :
  exists r,
    select_route [cand_E; cand_D] 5 = Some r
    /\ In r [cand_E; cand_D]
    /\ forall c, In c [cand_E; cand_D] ->
         (distDiff 5 r <=? distDiff 5 c) = true
         /\ ((distDiff 5 c =? distDiff 5 r) = true ->
             (elevationGainM r <=? elevationGainM c) = true).
Proof.
  apply (proj1 select_route_nearest_computed [cand_E; cand_D] 5).
  - discriminate.
  - intros c [<-|[<-|[]]]; reflexivity.
  - intros c [<-|[<-|[]]]; split; reflexivity.
Defined.

End Selector64.

(** * Further properties of the code *)

(** ** The selector: absence of a result *)

Lemma select_route_none (validRoutes : list OptimalRouteData) (d : Q) :
  select_route validRoutes d = None <-> validRoutes = [].
Proof.
  split; [|intros ->; reflexivity].
  destruct validRoutes as [|v vs]; [reflexivity|]. intros H. exfalso.
  unfold select_route in H.
  change (List.length (v :: vs) =? 0)%nat with false in H. cbv iota in H.
  destruct (0 <? List.length (filter (in_tolerance d) (v :: vs)))%nat eqn:E.
  - destruct (first_or_null_some
                (Array_sort (compare_in_tolerance d)
                   (filter (in_tolerance d) (v :: vs)))) as [r Hr].
    + apply Array_sort_nonempty. intros N. rewrite N in E. discriminate E.
    + congruence.
  - destruct (first_or_null_some
                (Array_sort (compare_closest d) (v :: vs))) as [r Hr].
    + apply Array_sort_nonempty. discriminate.
    + congruence.
Qed.

Lemma Promise_allSettled_In {A : Type} (ps : list (Promise A))
    (results : list (PromiseSettledResult A)) (v : A) :
  Promise_allSettled ps = Some results ->
  (In (PromiseFulfilledResult v) results <-> In (fulfilled v) ps).
Proof.
  revert results. induction ps as [|p ps IH]; intros results H.
  - injection H as <-. reflexivity.
  - simpl in H. destruct (Promise_allSettled ps) as [rs|];
      [|destruct p; discriminate].
    specialize (IH rs eq_refl).
    destruct p as [w| |]; try discriminate; injection H as <-; simpl;
      rewrite IH; split; intros [E|E]; auto; try discriminate;
      left; congruence.
Qed.

(** X5.  The selector answers "none" for the empty set only; and a
    selection with the Maps API loaded returns [null] exactly when no
    candidate promise was fulfilled with a route. *)
Theorem none_found_only_without_candidates :
  (forall validRoutes d, select_route validRoutes d = None <-> validRoutes = [])
  /\ (forall m startPoint d,
         fst (findOptimalLoopRoute (window_of m) startPoint d) = returns None
         <-> forall r,
               ~ In (fulfilled (Some r))
                   (candidatePromises
                      (fan_out (window_of m) m startPoint d))).
Proof.
  split; [exact select_route_none|].
  intros m startPoint d.
  destruct (findOptimalLoopRoute_loaded m startPoint d)
    as (results & Hs & _ & Hr).
  rewrite Hr. split.
  - intros H r Hin. injection H as H. apply select_route_none in H.
    apply (Promise_allSettled_In _ _ _ Hs), validRoutes_of_In in Hin.
    rewrite H in Hin. destruct Hin.
  - intros H. f_equal. apply select_route_none.
    destruct (validRoutes_of results) as [|v vs] eqn:E; [reflexivity|].
    exfalso. apply (H v). apply (Promise_allSettled_In _ _ _ Hs).
    apply validRoutes_of_In. rewrite E. now left.
Qed.

(** ** The log of a selection *)

Lemma for_loop_invariant_indexed {S : Type} (Inv : nat -> S -> Prop)
    (body : nat -> S -> S) :
  (forall i s, Inv i s -> Inv (Datatypes.S i) (body i s)) ->
  forall n i s, Inv i s -> Inv (i + n)%nat (for_loop n i body s).
Proof.
  intros Hbody. induction n as [|n IH]; intros i s Hs; simpl.
  - now rewrite Nat.add_0_r.
  - rewrite <- Nat.add_succ_comm. apply IH. now apply Hbody.
Qed.

Lemma DirectionsStatus_eqb_refl (s : DirectionsStatus) :
  DirectionsStatus_eqb s s = true.
Proof. destruct s; reflexivity. Qed.

Lemma ElevationStatus_eqb_eq (a b : ElevationStatus) :
  ElevationStatus_eqb a b = true -> a = b.
Proof. destruct a, b; simpl; congruence. Qed.

Lemma elevation_callback_log (res : DirectionsResult) (meters : Q)
    (reply : ElevationReply) :
  snd (elevation_callback res meters reply) = []
  \/ snd (elevation_callback res meters reply)
     = [ConsoleWarn (String.append "Elevation query failed for a route: "
                       (ElevationStatus_str (elevationStatus reply)))].
Proof.
  unfold elevation_callback.
  destruct (ElevationStatus_eqb _ ES_OK), (elevationResults reply) as [l|];
    try (right; reflexivity).
  destruct (calculateCumulativeElevation l); left; reflexivity.
Qed.

(** What one callback logs: at most one elevation query, then at most one
    warning. *)
Lemma directions_callback_log (m : MapsApi) (k : nat)
    (result : option DirectionsResult) (status : DirectionsStatus) :
  exists qs ws,
    snd (directions_callback m k result status)
    = map ElevationQuery qs ++ map ConsoleWarn ws
    /\ (List.length qs <= 1)%nat /\ (List.length ws <= 1)%nat
    /\ Forall expected_warning ws.
Proof.
  destruct (first_route result status) as [[res rt]|] eqn:F.
  - destruct (first_route_inv _ _ _ _ F) as (-> & -> & rest & Hr).
    destruct (Qeq_bool (actualDistanceMeters_of rt) 0) eqn:E.
    { apply Qeq_bool_iff in E.
      rewrite (directions_callback_discarded m k res rt rest Hr (or_introl E)).
      exists [], []. repeat split; simpl; auto. }
    apply Qeq_bool_false in E.
    destruct (le_lt_dec 2 (List.length (overview_path rt))) as [L|L].
    + rewrite (directions_callback_queried m k res rt rest Hr E L).
      cbn [snd].
      destruct (elevation_callback_log res (actualDistanceMeters_of rt)
                  (ElevationService_getElevationForPath m k
                     {| path := overview_path rt;
                        samples := Nat.min ELEVATION_SAMPLES
                                     (List.length (overview_path rt)) |}))
        as [-> | ->].
      * eexists [_], []. repeat split; simpl; auto.
      * eexists [_], [_]. split; [reflexivity|]. repeat split; simpl; auto.
        constructor; [|constructor]. right. eexists. reflexivity.
    + rewrite (directions_callback_discarded m k res rt rest Hr (or_intror L)).
      exists [], []. repeat split; simpl; auto.
  - unfold directions_callback. rewrite F. cbn [snd].
    destruct (DirectionsStatus_eqb status DS_ZERO_RESULTS) eqn:Z; cbn [negb].
    + exists [], []. repeat split; simpl; auto.
    + eexists [], [_]. split; [reflexivity|]. repeat split; simpl; auto.
      constructor; [|constructor]. left. exists status. split; [|reflexivity].
      intros ->. discriminate Z.
Qed.

Lemma console_warnings_app (e1 e2 : list Event) :
  console_warnings (e1 ++ e2) = console_warnings e1 ++ console_warnings e2.
Proof. unfold console_warnings. apply flat_map_app. Qed.

Lemma elevation_queries_shape (qs : list PathElevationRequest)
    (ws : list string) :
  elevation_queries (map ElevationQuery qs ++ map ConsoleWarn ws) = qs.
Proof.
  rewrite elevation_queries_app.
  assert (elevation_queries (map ConsoleWarn ws) = []) as ->
      by (induction ws; simpl; auto).
  rewrite app_nil_r. induction qs; simpl; [reflexivity | now f_equal].
Qed.

Lemma console_warnings_shape (qs : list PathElevationRequest)
    (ws : list string) :
  console_warnings (map ElevationQuery qs ++ map ConsoleWarn ws) = ws.
Proof.
  rewrite console_warnings_app.
  assert (console_warnings (map ElevationQuery qs) = []) as ->
      by (induction qs; simpl; auto).
  simpl. induction ws; simpl; [reflexivity | now f_equal].
Qed.

Lemma candidate_promise_log (m : MapsApi) (k : nat)
    (request : DirectionsRequest) :
  (List.length (elevation_queries (snd (candidate_promise m k request))) <= 1)%nat
  /\ (List.length (console_warnings (snd (candidate_promise m k request)))
      <= 1)%nat
  /\ Forall expected_warning
       (console_warnings (snd (candidate_promise m k request))).
Proof.
  unfold candidate_promise.
  destruct (DirectionsService_route m k request) as [result status|].
  - destruct (directions_callback_log m k result status)
      as (qs & ws & Hlog & Hq & Hw & Hexp).
    destruct (directions_callback m k result status) as [p evs].
    cbn [snd] in *. subst evs.
    change (elevation_queries (DirectionsQuery request :: ?e))
      with (elevation_queries e).
    change (console_warnings (DirectionsQuery request :: ?e))
      with (console_warnings e).
    rewrite elevation_queries_shape, console_warnings_shape. auto.
  - simpl. repeat split; auto.
Qed.

Lemma loop_request_is_loop_query (startPoint p : LatLng) :
  loop_query startPoint (loop_request startPoint p).
Proof. unfold loop_query, loop_request. simpl. repeat split. now exists p. Qed.

Lemma fan_out_log (window : Window) (m : MapsApi)
    (startPoint : LatLng) (d : Q) :
  let evs := events (fan_out window m startPoint d) in
  (List.length (directions_queries evs) <= 8)%nat
  /\ (List.length (elevation_queries evs)
      <= List.length (directions_queries evs))%nat
  /\ (List.length (console_warnings evs)
      <= List.length (directions_queries evs))%nat
  /\ Forall (loop_query startPoint) (directions_queries evs)
  /\ Forall expected_warning (console_warnings evs).
Proof.
  unfold fan_out, for_range.
  change (NUM_INTERMEDIATE_POINT_CANDIDATES - 0)%nat with (0 + 8)%nat.
  apply (for_loop_invariant_indexed
           (fun i st =>
              let evs := events st in
              (List.length (directions_queries evs) <= i)%nat
              /\ (List.length (elevation_queries evs)
                  <= List.length (directions_queries evs))%nat
              /\ (List.length (console_warnings evs)
                  <= List.length (directions_queries evs))%nat
              /\ Forall (loop_query startPoint) (directions_queries evs)
              /\ Forall expected_warning (console_warnings evs))).
  - intros i st (H1 & H2 & H3 & H4 & H5). unfold candidate_step.
    destruct (calculateIntermediatePoint _ _ _ _) as [pt|];
      [|cbn zeta; repeat split; auto; lia].
    pose proof (candidate_promise_log m (List.length (candidatePromises st))
                  (loop_request startPoint pt)) as (L1 & L2 & L3).
    pose proof (candidate_promise_directions_query m
                  (List.length (candidatePromises st))
                  (loop_request startPoint pt)) as L0.
    destruct (candidate_promise m _ _) as [p evs]. cbn [snd events] in *.
    cbn zeta.
    rewrite directions_queries_app, elevation_queries_app,
      console_warnings_app, L0, !length_app. simpl.
    repeat split; try lia.
    + apply Forall_app. split; [exact H4|].
      constructor; [apply loop_request_is_loop_query | constructor].
    + apply Forall_app. now split.
  - simpl. repeat split; auto.
Qed.

Lemma findOptimalLoopRoute_events_cases (window : Window)
    (startPoint : LatLng) (d : Q) :
  snd (findOptimalLoopRoute window startPoint d) = []
  \/ exists m,
       window = window_of m
       /\ snd (findOptimalLoopRoute window startPoint d)
          = events (fan_out window m startPoint d).
Proof.
  destruct (google window) as [g|] eqn:Hg;
    [|left; unfold findOptimalLoopRoute; now rewrite Hg].
  destruct (maps g) as [m|] eqn:Hm;
    [|left; unfold findOptimalLoopRoute; now rewrite Hg, Hm].
  right. exists m. pose proof (window_loaded window g m Hg Hm) as ->.
  split; [reflexivity | apply findOptimalLoopRoute_events].
Qed.


(** X8.  A selection issues at most eight route queries, each for a
    walking loop from the start point back to it through one stop and
    without alternatives; and it issues no more elevation queries, and
    logs no more warnings, than it issued route queries. *)
Theorem selection_query_budget
    (window : Window) (startPoint : LatLng) (d : Q) :
  let evs := snd (findOptimalLoopRoute window startPoint d) in
  (List.length (directions_queries evs) <= 8)%nat
  /\ (List.length (elevation_queries evs)
      <= List.length (directions_queries evs))%nat
  /\ (List.length (console_warnings evs)
      <= List.length (directions_queries evs))%nat
  /\ Forall (loop_query startPoint) (directions_queries evs).
Proof.
  destruct (findOptimalLoopRoute_events_cases window startPoint d)
    as [E|(m & _ & E)]; cbn zeta; rewrite E.
  - simpl. repeat split; auto; lia.
  - destruct (fan_out_log window m startPoint d) as (H1 & H2 & H3 & H4 & _).
    repeat split; assumption.
Qed.

Lemma candidate_promise_zero_results (m : MapsApi) (k : nat)
    (request : DirectionsRequest) (result : option DirectionsResult) :
  DirectionsService_route m k request = route_callback result DS_ZERO_RESULTS ->
  candidate_promise m k request = (fulfilled None, [DirectionsQuery request]).
Proof. intros H. unfold candidate_promise. rewrite H. reflexivity. Qed.

(** X9.  A warning of a selection is one of the two the code words, and
    the first is never about [ZERO_RESULTS]; when every route query ends
    with [ZERO_RESULTS] the selection returns [null] after its route
    queries alone, with no warning and no elevation query. *)
Theorem zero_results_is_silent :
  (forall window startPoint d,
      Forall expected_warning
        (console_warnings (snd (findOptimalLoopRoute window startPoint d))))
  /\ (forall m startPoint d,
         (forall k request, exists result,
             DirectionsService_route m k request
             = route_callback result DS_ZERO_RESULTS) ->
         fst (findOptimalLoopRoute (window_of m) startPoint d) = returns None
         /\ console_warnings
              (snd (findOptimalLoopRoute (window_of m) startPoint d)) = []
         /\ elevation_queries
              (snd (findOptimalLoopRoute (window_of m) startPoint d)) = []).
Proof.
  split.
  - intros window startPoint d.
    destruct (findOptimalLoopRoute_events_cases window startPoint d)
      as [E|(m & _ & E)]; rewrite E; [constructor|].
    apply (fan_out_log window m startPoint d).
  - intros m startPoint d Hzero.
    assert (Hinv :
              Forall (eq (fulfilled None))
                (candidatePromises (fan_out (window_of m) m startPoint d))
              /\ console_warnings
                   (events (fan_out (window_of m) m startPoint d)) = []
              /\ elevation_queries
                   (events (fan_out (window_of m) m startPoint d)) = []).
    { unfold fan_out, for_range.
      apply (for_loop_invariant
               (fun st => Forall (eq (fulfilled None)) (candidatePromises st)
                          /\ console_warnings (events st) = []
                          /\ elevation_queries (events st) = [])).
      - intros i st (Hp & Hw & Hq). unfold candidate_step.
        destruct (calculateIntermediatePoint _ _ _ _) as [pt|]; [|auto].
        destruct (Hzero (List.length (candidatePromises st))
                    (loop_request startPoint pt)) as [result Hr].
        rewrite (candidate_promise_zero_results _ _ _ _ Hr). cbn [events candidatePromises].
        rewrite console_warnings_app, elevation_queries_app, Hw, Hq.
        repeat split; auto. apply Forall_app. split; [exact Hp|].
        now constructor.
      - simpl. auto. }
    destruct Hinv as (Hp & Hw & Hq).
    rewrite findOptimalLoopRoute_events. split; [|now split].
    destruct (findOptimalLoopRoute_loaded m startPoint d)
      as (results & Hs & _ & Hr).
    rewrite Hr. f_equal. apply select_route_none.
    destruct (validRoutes_of results) as [|v vs] eqn:E; [reflexivity|].
    exfalso.
    assert (In v (validRoutes_of results)) as Hv by (rewrite E; now left).
    apply validRoutes_of_In, (Promise_allSettled_In _ _ _ Hs) in Hv.
    rewrite Forall_forall in Hp. specialize (Hp _ Hv). discriminate Hp.
Qed.

Lemma zero_results_is_silent_witness :
  findOptimalLoopRoute (window_of maps_zero_results) start0 5
  = (returns None,
     map DirectionsQuery
       (directions_queries
          (snd (findOptimalLoopRoute (window_of maps_zero_results) start0 5))))
  /\ console_warnings
       (snd (findOptimalLoopRoute (window_of maps_zero_results) start0 5)) = [].
Proof.
  split; [reflexivity|].
  apply (proj2 zero_results_is_silent maps_zero_results start0 5).
  intros k request. now exists None.
Defined.

(** ** Where a returned candidate comes from *)

Lemma elevation_callback_fulfilled (res : DirectionsResult) (meters : Q)
    (reply : ElevationReply) (r : OptimalRouteData) :
  fst (elevation_callback res meters reply) = fulfilled (Some r) ->
  exists results,
    reply = {| elevationResults := Some results; elevationStatus := ES_OK |}
    /\ calculateCumulativeElevation results = Some (elevationGainM r)
    /\ route r = res
    /\ distanceKm r = meters / 1000.
Proof.
  destruct reply as [results est]. unfold elevation_callback. simpl.
  destruct (ElevationStatus_eqb est ES_OK) eqn:E;
    [|destruct results; discriminate].
  apply ElevationStatus_eqb_eq in E. subst est.
  destruct results as [l|]; [|discriminate].
  destruct (calculateCumulativeElevation l) as [g|] eqn:G; [|discriminate].
  simpl. intros [= <-]. exists l. simpl. auto.
Qed.

Lemma directions_callback_fulfilled (m : MapsApi) (k : nat)
    (result : option DirectionsResult) (status : DirectionsStatus)
    (r : OptimalRouteData) :
  fst (directions_callback m k result status) = fulfilled (Some r) ->
  exists rt rest results,
    result = Some (route r) /\ status = DS_OK
    /\ routes (route r) = rt :: rest
    /\ distanceKm r = actualDistanceMeters_of rt / 1000
    /\ ElevationService_getElevationForPath m k
         {| path := overview_path rt;
            samples := Nat.min ELEVATION_SAMPLES
                         (List.length (overview_path rt)) |}
       = {| elevationResults := Some results; elevationStatus := ES_OK |}
    /\ calculateCumulativeElevation results = Some (elevationGainM r).
Proof.
  destruct (first_route result status) as [[res rt]|] eqn:F.
  - destruct (first_route_inv _ _ _ _ F) as (-> & -> & rest & Hr).
    destruct (Qeq_bool (actualDistanceMeters_of rt) 0) eqn:E.
    { apply Qeq_bool_iff in E.
      rewrite (directions_callback_discarded m k res rt rest Hr (or_introl E)).
      discriminate. }
    apply Qeq_bool_false in E.
    destruct (le_lt_dec 2 (List.length (overview_path rt))) as [L|L].
    + rewrite (directions_callback_queried m k res rt rest Hr E L).
      cbn [fst]. intros H.
      destruct (elevation_callback_fulfilled _ _ _ _ H)
        as (results & Hreply & Hgain & Hroute & Hdist).
      subst res. exists rt, rest, results. auto 10.
    + rewrite (directions_callback_discarded m k res rt rest Hr (or_intror L)).
      discriminate.
  - unfold directions_callback. rewrite F. discriminate.
Qed.

Lemma candidate_promise_fulfilled (m : MapsApi) (k : nat)
    (startPoint waypoint : LatLng) (r : OptimalRouteData) :
  fst (candidate_promise m k (loop_request startPoint waypoint))
  = fulfilled (Some r) ->
  measured_at m startPoint k r.
Proof.
  unfold candidate_promise.
  destruct (DirectionsService_route m k (loop_request startPoint waypoint))
    as [result status|] eqn:R; [|discriminate].
  destruct (directions_callback m k result status) as [p evs] eqn:D.
  cbn [fst]. intros ->.
  assert (fst (directions_callback m k result status) = fulfilled (Some r))
    as H by now rewrite D.
  destruct (directions_callback_fulfilled _ _ _ _ _ H)
    as (rt & rest & results & -> & -> & Hr & Hd & He & Hg).
  exists waypoint, rt, rest, results. auto 10.
Qed.

Lemma fan_out_measured (window : Window) (m : MapsApi)
    (startPoint : LatLng) (d : Q) (r : OptimalRouteData) :
  In (fulfilled (Some r)) (candidatePromises (fan_out window m startPoint d)) ->
  exists k, (k < 8)%nat /\ measured_at m startPoint k r.
Proof.
  unfold fan_out, for_range.
  change (NUM_INTERMEDIATE_POINT_CANDIDATES - 0)%nat with (0 + 8)%nat.
  apply (for_loop_invariant_indexed
           (fun i st =>
              (List.length (candidatePromises st) <= i)%nat
              /\ forall r, In (fulfilled (Some r)) (candidatePromises st) ->
                   exists k, (k < i)%nat /\ measured_at m startPoint k r)).
  - intros i st [Hlen Hall]. unfold candidate_step.
    destruct (calculateIntermediatePoint _ _ _ _) as [pt|].
    + pose proof (candidate_promise_fulfilled m
                    (List.length (candidatePromises st)) startPoint pt) as Hc.
      destruct (candidate_promise m _ _) as [p evs]. cbn [fst] in Hc.
      cbn [candidatePromises]. rewrite length_app. simpl. split; [lia|].
      intros r' Hin. apply in_app_or in Hin. destruct Hin as [Hin|[->|[]]].
      * destruct (Hall r' Hin) as (k & Hk & Hm). exists k. split; [lia|exact Hm].
      * exists (List.length (candidatePromises st)). split; [lia|].
        now apply Hc.
    + split; [lia|]. intros r' Hin.
      destruct (Hall r' Hin) as (k & Hk & Hm). exists k. split; [lia|exact Hm].
  - simpl. split; [lia|]. intros r' [].
Qed.

(** X10.  The candidate a selection returns was measured on the answers
    to one and the same of the eight candidates: its route is the result
    of that candidate's loop query, its distance the summed legs of the
    first route (in kilometres), its gain the gain of the elevation
    samples returned for that route's overview path. *)
Theorem returned_candidate_provenance
    (m : MapsApi) (startPoint : LatLng) (d : Q) (r : OptimalRouteData) :
  fst (findOptimalLoopRoute (window_of m) startPoint d) = returns (Some r) ->
  exists k, (k < 8)%nat /\ measured_at m startPoint k r.
Proof.
  intros H.
  destruct (findOptimalLoopRoute_loaded m startPoint d)
    as (results & Hs & _ & Hr).
  rewrite Hr in H. injection H as H. apply select_route_In in H.
  apply validRoutes_of_In, (Promise_allSettled_In _ _ _ Hs) in H.
  now apply fan_out_measured in H.
Qed.

Lemma returned_candidate_provenance_witness :
  exists r k,
    fst (findOptimalLoopRoute (window_of maps_ok) start0 5) = returns (Some r)
    /\ (k < 8)%nat /\ measured_at maps_ok start0 k r.
Proof.
  eexists.
  destruct (returned_candidate_provenance maps_ok start0 5 _ eq_refl)
    as (k & Hk & Hm).
  exists k. split; [reflexivity|]. split; assumption.
Defined.

(** ** The caller *)

Lemma findOptimalLoopRoute_completes (window : Window)
    (startPoint : LatLng) (d : Q) :
  (exists v, fst (findOptimalLoopRoute window startPoint d) = returns v)
  \/ findOptimalLoopRoute window startPoint d
     = (throws "Google Maps API not loaded.", []).
Proof.
  destruct (google window) as [g|] eqn:Hg;
    [|right; unfold findOptimalLoopRoute; now rewrite Hg].
  destruct (maps g) as [m|] eqn:Hm;
    [|right; unfold findOptimalLoopRoute; now rewrite Hg, Hm].
  left. rewrite (window_loaded window g m Hg Hm).
  destruct (findOptimalLoopRoute_loaded m startPoint d)
    as (results & _ & _ & Hr).
  eexists. exact Hr.
Qed.

Lemma Qle_bool_false (x y : Q) : y < x -> Qle_bool x y = false.
Proof.
  intros H. destruct (Qle_bool x y) eqn:E; [|reflexivity].
  apply Qle_bool_iff in E. lra.
Qed.

(** X11.  Called with a start point and a positive distance, the handler
    ends with the loading flag off, the start point and the distance as
    they were, and either a course and no error or an error and no
    course. *)
Theorem handleGenerateCourse_settles
    (window : Window) (st : App.State) (startPoint : LatLng) :
  App.userStartPoint st = Some startPoint ->
  0 < App.desiredDistanceKm st ->
  let st' := fst (App.handleGenerateCourse window st) in
  App.isLoading st' = false
  /\ App.userStartPoint st' = App.userStartPoint st
  /\ App.desiredDistanceKm st' = App.desiredDistanceKm st
  /\ ((App.error st' = None /\ exists c, App.generatedCourse st' = Some c)
      \/ (App.generatedCourse st' = None
          /\ exists e, App.error st' = Some e)).
Proof.
  intros Hsp Hd. unfold App.handleGenerateCourse.
  rewrite Hsp, (Qle_bool_false _ _ Hd).
  destruct (findOptimalLoopRoute_completes window startPoint
              (App.desiredDistanceKm st)) as [[v Hv]|Hthrow].
  - destruct (findOptimalLoopRoute window startPoint (App.desiredDistanceKm st))
      as [c evs]. simpl in Hv. subst c.
    destruct v as [r|]; simpl; repeat split; eauto.
  - rewrite Hthrow. simpl. repeat split; eauto.
Qed.

Lemma handleGenerateCourse_settles_witness :
  App.isLoading
    (fst (App.handleGenerateCourse (window_of maps_ok)
            (state0 (Some start0) 5))) = false
  /\ App.isLoading
       (fst (App.handleGenerateCourse window_not_loaded
               (state0 (Some start0) 5))) = false.
Proof.
  split.
  - apply (handleGenerateCourse_settles (window_of maps_ok)
             (state0 (Some start0) 5) start0); reflexivity.
  - apply (handleGenerateCourse_settles window_not_loaded
             (state0 (Some start0) 5) start0); reflexivity.
Defined.



(** ** Powers of ten *)

Lemma scale_positive (digits : nat) :
  0 < inject_Z (10 ^ Z.of_nat digits).
Proof.
  assert (0 < 10 ^ Z.of_nat digits)%Z by (apply Z.pow_pos_nonneg; lia).
  unfold Qlt. simpl. lia.
Qed.

(** ** The distance input *)

Lemma take_digits_nil (s rest : string) :
  ControlPanel.take_digits s = ([], rest) -> rest = s.
Proof.
  destruct s as [|c s']; simpl; [now intros [= <-]|].
  destruct (ControlPanel.is_digit c); [|now intros [= <-]].
  destruct (ControlPanel.take_digits s'). discriminate.
Qed.

Lemma decimal_value_nonneg (ds : list ascii) :
  (0 <= ControlPanel.decimal_value ds)%Z.
Proof.
  unfold ControlPanel.decimal_value.
  assert (forall acc, (0 <= acc)%Z ->
            (0 <= fold_left
                    (fun a c => (10 * a + ControlPanel.digit_value c)%Z)
                    ds acc)%Z) as H.
  { induction ds as [|c ds IH]; intros acc Hacc; cbn [fold_left];
      [exact Hacc|].
    apply IH. unfold ControlPanel.digit_value.
    generalize (nat_of_ascii c - 48)%nat. intros n. lia. }
  apply H. lia.
Qed.

Lemma inject_Z_nonneg (z : Z) : (0 <= z)%Z -> 0 <= inject_Z z.
Proof. intros H. unfold Qle. simpl. lia. Qed.

Lemma parseFloat_nonneg (s : string) (x : Q) :
  ControlPanel.parseFloat s = Some x -> 0 <= x.
Proof.
  unfold ControlPanel.parseFloat.
  destruct (ControlPanel.take_digits s) as [int_digits rest].
  set (frac := match ControlPanel.after_dot rest with
               | Some rest' => fst (ControlPanel.take_digits rest')
               | None => []
               end).
  assert (0 <= inject_Z (ControlPanel.decimal_value int_digits)
               + inject_Z (ControlPanel.decimal_value frac)
                 / inject_Z (10 ^ Z.of_nat (List.length frac))) as Hsum.
  { pose proof (inject_Z_nonneg _ (decimal_value_nonneg int_digits)) as H1.
    pose proof (inject_Z_nonneg _ (decimal_value_nonneg frac)) as H2.
    pose proof (scale_positive (List.length frac)) as H3.
    assert (0 <= inject_Z (ControlPanel.decimal_value frac)
                 / inject_Z (10 ^ Z.of_nat (List.length frac))) as H4.
    { apply Qle_shift_div_l; [exact H3|]. now rewrite Qmult_0_l. }
    apply (Qle_trans _ (0 + 0)); [discriminate|].
    apply Qplus_le_compat; assumption. }
  destruct int_digits, frac; intros [= <-]; exact Hsum.
Qed.

Lemma ge_zero_parseFloat (s : string) :
  ControlPanel.ge_zero (ControlPanel.parseFloat s) = true
  <-> exists x, ControlPanel.parseFloat s = Some x.
Proof.
  split.
  - destruct (ControlPanel.parseFloat s) as [x|]; [now exists x|discriminate].
  - intros [x Hx]. rewrite Hx. simpl. apply Qle_bool_iff.
    now apply parseFloat_nonneg in Hx.
Qed.

(** Among the texts that pass the first pattern only the empty one and the
    lone dot have no value. *)
Lemma parseFloat_none (s : string) :
  ControlPanel.test_decimal s = true ->
  ControlPanel.parseFloat s = None ->
  s = ""%string \/ s = "."%string.
Proof.
  unfold ControlPanel.test_decimal, ControlPanel.parseFloat.
  destruct (ControlPanel.take_digits s) as [int_digits rest] eqn:T.
  destruct int_digits as [|d ds].
  2:{ intros _. destruct (ControlPanel.after_dot rest) as [rest'|];
        [destruct (fst (ControlPanel.take_digits rest'))|]; discriminate. }
  apply take_digits_nil in T. subst rest.
  destruct s as [|c s']; [now left|].
  unfold ControlPanel.after_dot.
  destruct (Ascii.eqb c ".") eqn:E; [|discriminate].
  apply Ascii.eqb_eq in E. subst c.
  destruct (ControlPanel.take_digits s') as [frac rest''] eqn:T'.
  cbn [fst snd]. intros Hrest Hnone.
  destruct rest''; [|discriminate].
  destruct frac; [|discriminate].
  apply take_digits_nil in T'. subst s'. now right.
Qed.

Lemma test_digits_decimal (s : string) :
  ControlPanel.test_digits s = true -> ControlPanel.test_decimal s = true.
Proof.
  unfold ControlPanel.test_digits, ControlPanel.test_decimal.
  destruct (ControlPanel.take_digits s) as [[|d ds] [|c rest]];
    try discriminate. reflexivity.
Qed.

Lemma second_test_first (value : string) :
  ControlPanel.second_test value = true ->
  ControlPanel.first_test value = true.
Proof.
  unfold ControlPanel.second_test, ControlPanel.first_test.
  intros H. apply andb_true_iff in H. destruct H as [H1 H2].
  rewrite (test_digits_decimal _ H1), H2. apply orb_true_r.
Qed.

(** X14.  The handler passes on a number that is neither [NaN] nor
    negative, 0 for the empty text; and it ignores a text exactly when the
    text fails the pattern of digits with at most one dot or is the lone
    dot. *)
Theorem handleInputChange_forwards (value : string) :
  (forall v, ControlPanel.handleInputChange value = Some v ->
             exists x, v = Some x /\ 0 <= x)
  /\ (value = ""%string ->
      ControlPanel.handleInputChange value = Some (Some 0))
  /\ (ControlPanel.handleInputChange value = None
      <-> value = "."%string \/ ControlPanel.test_decimal value = false).
Proof.
  unfold ControlPanel.handleInputChange.
  destruct (ControlPanel.first_test value) eqn:F.
  - unfold ControlPanel.first_test in F. split; [|split].
    + intros v [= <-]. destruct (String.eqb value "") eqn:E.
      * exists 0. split; [reflexivity | lra].
      * simpl in F. apply andb_true_iff in F. destruct F as [_ F].
        apply ge_zero_parseFloat in F. destruct F as [x Hx].
        exists x. split; [exact Hx | now apply parseFloat_nonneg in Hx].
    + intros ->. reflexivity.
    + split; [discriminate|]. intros [->|H]; [discriminate F|].
      rewrite H in F. simpl in F. rewrite orb_false_r in F.
      apply String.eqb_eq in F. subst value. discriminate H.
  - assert (ControlPanel.second_test value = false) as S.
    { destruct (ControlPanel.second_test value) eqn:S; [|reflexivity].
      apply second_test_first in S. congruence. }
    rewrite S. split; [discriminate|]. split.
    + intros ->. discriminate F.
    + split; [|reflexivity]. intros _.
      destruct (ControlPanel.test_decimal value) eqn:D; [|now right].
      left. unfold ControlPanel.first_test in F. rewrite D in F.
      apply orb_false_iff in F. destruct F as [Hne F]. simpl in F.
      destruct (ControlPanel.parseFloat value) as [x|] eqn:P.
      * assert (ControlPanel.ge_zero (ControlPanel.parseFloat value) = true)
          as G by (apply ge_zero_parseFloat; now exists x).
        rewrite P in G. congruence.
      * destruct (parseFloat_none value D P) as [->| ->];
          [discriminate Hne | reflexivity].
Qed.

(** X15.  The second branch of the handler never runs: a text that passes
    its test has passed the test of the first branch. *)
Theorem handleInputChange_second_branch_dead (value : string) :
  (ControlPanel.second_test value = true ->
   ControlPanel.first_test value = true)
  /\ ControlPanel.handleInputChange value
     = if ControlPanel.first_test value
       then Some (if String.eqb value "" then Some 0
                  else ControlPanel.parseFloat value)
       else None.
Proof.
  split; [apply second_test_first|].
  unfold ControlPanel.handleInputChange.
  destruct (ControlPanel.first_test value) eqn:F; [reflexivity|].
  destruct (ControlPanel.second_test value) eqn:S; [|reflexivity].
  apply second_test_first in S. congruence.
Qed.

(** ** One good candidate is enough *)

Lemma candidate_loop_promises (m : MapsApi) (geo : GeometryLibrary)
    (startPoint : LatLng) (dist : Q) :
  geometry m = Some geo ->
  forall n i st,
    List.length (candidatePromises st) = i ->
    candidatePromises
      (for_loop n i (candidate_step (window_of m) m startPoint dist) st)
    = candidatePromises st
      ++ map (fun j =>
                fst (candidate_promise m j
                       (loop_request startPoint
                          (computeOffset geo startPoint dist
                             (candidate_angle j)))))
           (seq i n).
Proof.
  intros Hgeo. induction n as [|n IH]; intros i st Hlen.
  - simpl. now rewrite app_nil_r.
  - cbn [for_loop seq map].
    set (st1 := candidate_step (window_of m) m startPoint dist i st).
    assert (candidatePromises st1
            = candidatePromises st
              ++ [fst (candidate_promise m i
                         (loop_request startPoint
                            (computeOffset geo startPoint dist
                               (candidate_angle i))))]) as H1.
    { subst st1. unfold candidate_step.
      rewrite (calculateIntermediatePoint_loaded m geo) by assumption.
      rewrite Hlen. now destruct (candidate_promise m i _). }
    rewrite (IH (Datatypes.S i) st1), H1, <- app_assoc; [reflexivity|].
    rewrite H1, length_app. simpl. lia.
Qed.

Lemma candidate_promise_measured (m : MapsApi) (k : nat)
    (request : DirectionsRequest) (res : DirectionsResult)
    (rt : DirectionsRoute) (rest : list DirectionsRoute)
    (results : list ElevationResult) :
  DirectionsService_route m k request = route_callback (Some res) DS_OK ->
  routes res = rt :: rest ->
  ~ actualDistanceMeters_of rt == 0 ->
  (2 <= List.length (overview_path rt))%nat ->
  ElevationService_getElevationForPath m k
    {| path := overview_path rt;
       samples := Nat.min ELEVATION_SAMPLES (List.length (overview_path rt)) |}
  = {| elevationResults := Some results; elevationStatus := ES_OK |} ->
  exists r, fst (candidate_promise m k request) = fulfilled (Some r).
Proof.
  intros Hroute Hr Hne Hlen Hreply. unfold candidate_promise. rewrite Hroute.
  rewrite (directions_callback_queried m k res rt rest Hr Hne Hlen).
  cbn [fst]. rewrite Hreply. unfold elevation_callback. simpl.
  destruct (calculateCumulativeElevation_spec results) as (g & Hg & _).
  rewrite Hg. eexists. reflexivity.
Qed.

(** X16.  One candidate that is answered well is enough for a course:
    with the geometry library loaded, if for one of the eight bearings the
    route query succeeds with a route of non-zero summed distance and an
    overview path of two points at least, and its elevation query
    succeeds, then the selection returns a candidate, not [null]. *)
Theorem one_measured_candidate_suffices
    (m : MapsApi) (geo : GeometryLibrary) (startPoint : LatLng) (d : Q)
    (k : nat) (res : DirectionsResult) (rt : DirectionsRoute)
    (rest : list DirectionsRoute) (results : list ElevationResult) :
  geometry m = Some geo ->
  (k < 8)%nat ->
  DirectionsService_route m k
    (loop_request startPoint
       (computeOffset geo startPoint (d * 0.4 * 1000)
          ((360 / 8) * inject_Z (Z.of_nat k))))
  = route_callback (Some res) DS_OK ->
  routes res = rt :: rest ->
  ~ actualDistanceMeters_of rt == 0 ->
  (2 <= List.length (overview_path rt))%nat ->
  ElevationService_getElevationForPath m k
    {| path := overview_path rt;
       samples := Nat.min 128 (List.length (overview_path rt)) |}
  = {| elevationResults := Some results; elevationStatus := ES_OK |} ->
  exists r,
    fst (findOptimalLoopRoute (window_of m) startPoint d) = returns (Some r).
Proof.
  intros Hgeo Hk Hroute Hr Hne Hlen Hreply.
  destruct (candidate_promise_measured m k _ res rt rest results
              Hroute Hr Hne Hlen Hreply) as [r0 Hr0].
  assert (In (fulfilled (Some r0))
            (candidatePromises (fan_out (window_of m) m startPoint d))) as Hin.
  { unfold fan_out, for_range.
    rewrite (candidate_loop_promises m geo startPoint _ Hgeo _ 0
               {| candidatePromises := []; events := [] |} eq_refl).
    cbn [candidatePromises app]. rewrite <- Hr0.
    apply (in_map (fun j =>
                     fst (candidate_promise m j
                            (loop_request startPoint
                               (computeOffset geo startPoint
                                  (d * INTERMEDIATE_POINT_RADIUS_FACTOR * 1000)
                                  (candidate_angle j)))))).
    apply in_seq. unfold NUM_INTERMEDIATE_POINT_CANDIDATES. lia. }
  destruct (findOptimalLoopRoute_loaded m startPoint d)
    as (results' & Hs & _ & Hret).
  rewrite Hret.
  destruct (select_route (validRoutes_of results') d) as [r|] eqn:S;
    [now exists r|].
  apply select_route_none in S.
  apply (Promise_allSettled_In _ _ _ Hs), validRoutes_of_In in Hin.
  rewrite S in Hin. destruct Hin.
Qed.

Lemma one_measured_candidate_suffices_witness :
  exists r,
    fst (findOptimalLoopRoute (window_of maps_ok) start0 5) = returns (Some r).
Proof.
  apply (one_measured_candidate_suffices maps_ok flat_offset start0 5 3
           {| routes := [route0] |} route0 []
           [sample 10; sample 14; sample 11]).
  - reflexivity.
  - lia.
  - reflexivity.
  - reflexivity.
  - vm_compute. discriminate.
  - simpl. lia.
  - reflexivity.
Defined.

(** ** Further properties of the binary64 arithmetic *)

Section Further64.
Local Open Scope float_scope.
Import Binary64.

(** X1.  Whatever the samples, [NaN] and the infinities included, the gain
    is a number and is never negative. *)
Theorem cumulative_elevation_is_nonnegative_number
    (elevations : list ElevationResult) :
  exists gain,
    calculateCumulativeElevation elevations = Some gain
    /\ (0 <=? gain) = true.
Proof.
  exists (sum_of_rises 0 (map elevation elevations)).
  split; [apply calculateCumulativeElevation_spec64|].
  destruct (sum_of_rises_invariant (map elevation elevations) 0) as [->|H];
    [now left | reflexivity | now apply ltb_leb].
Qed.

(** X6.  The candidate returned lies in the computed band exactly when
    some collected candidate does: a result outside the band means every
    candidate is outside it. *)
Theorem selected_in_computed_band_iff_some_candidate_is
    (validRoutes : list OptimalRouteData) (d : float) (r : OptimalRouteData) :
  select_route validRoutes d = Some r ->
  In r validRoutes
  /\ (in_tolerance d r = true
      <-> exists c, In c validRoutes /\ in_tolerance d c = true).
Proof.
  intros Hr.
  destruct (existsb (in_tolerance d) validRoutes) eqn:E.
  - apply existsb_exists in E.
    rewrite (select_route_in_band validRoutes d E) in Hr.
    apply Array_sort_first_In, filter_In in Hr. destruct Hr as [Hin Htol].
    split; [exact Hin|]. split; [now intros _ | now intros _].
  - assert (Hout : forall c, In c validRoutes -> in_tolerance d c = false).
    { intros c Hc. destruct (in_tolerance d c) eqn:T; [|reflexivity].
      rewrite <- E. symmetry. apply existsb_exists. now exists c. }
    assert (Hne : validRoutes <> [])
      by (intros ->; discriminate Hr).
    rewrite (select_route_out_of_band validRoutes d Hne Hout) in Hr.
    apply Array_sort_first_In in Hr.
    split; [exact Hr|]. split.
    + intros T. rewrite (Hout r Hr) in T. discriminate T.
    + intros (c & Hc & T). rewrite (Hout c Hc) in T. discriminate T.
Qed.

Lemma selected_in_computed_band_iff_some_candidate_is_witness :
  In cand_D [cand_D; cand_E]
  /\ (in_tolerance 5 cand_D = true
      <-> exists c, In c [cand_D; cand_E] /\ in_tolerance 5 c = true).
Proof.
  apply (selected_in_computed_band_iff_some_candidate_is
           [cand_D; cand_E] 5 cand_D).
  reflexivity.
Defined.

Lemma keys_le_antisym {A : Type} (key1 key2 : A -> float) (x y : A) :
  is_nan (key1 x) = false /\ is_nan (key2 x) = false ->
  is_nan (key1 y) = false /\ is_nan (key2 y) = false ->
  keys_le key1 key2 x y -> keys_le key1 key2 y x ->
  (key1 x =? key1 y) = true /\ (key2 x =? key2 y) = true.
Proof.
  intros [X1 X2] [Y1 Y2]. unfold keys_le. intros H1 H2.
  split; order_on_keys.
Qed.

(** X7.  The order in which the candidates were collected does not change
    the measures of the choice: on a permutation of the candidates, all
    with numbers for sort keys, the selection returns a candidate with
    the same elevation gain and the same computed distance error. *)
Theorem selection_keys_independent_of_order
    (l l' : list OptimalRouteData) (d : float) (r : OptimalRouteData) :
  Permutation l l' ->
  (forall c, In c l -> keys_are_numbers d c) ->
  select_route l d = Some r ->
  exists r',
    select_route l' d = Some r'
    /\ (elevationGainM r' =? elevationGainM r) = true
    /\ (distDiff d r' =? distDiff d r) = true.
Proof.
  intros P Hnum Hr.
  assert (Hnum' : forall c, In c l' -> keys_are_numbers d c).
  { intros c Hc. apply Hnum. now apply (Permutation_in c (Permutation_sym P)). }
  destruct (existsb (in_tolerance d) l) eqn:E.
  - apply existsb_exists in E.
    assert (E' : exists c, In c l' /\ in_tolerance d c = true).
    { destruct E as (c & Hc & T). exists c. split; [|exact T].
      now apply (Permutation_in c P). }
    destruct (in_band_least l d E (fun c Hc _ => Hnum c Hc))
      as (r0 & Hr0 & Hin & Htol & Hmin).
    rewrite Hr in Hr0. injection Hr0 as <-.
    destruct (in_band_least l' d E' (fun c Hc _ => Hnum' c Hc))
      as (r' & Hr' & Hin' & Htol' & Hmin').
    exists r'. split; [exact Hr'|].
    apply (keys_le_antisym elevationGainM (distDiff d) r' r).
    + now apply Hnum'.
    + now apply Hnum.
    + apply Hmin'; [now apply (Permutation_in r P) | exact Htol].
    + apply Hmin; [now apply (Permutation_in r' (Permutation_sym P))
                  | exact Htol'].
  - assert (Hout : forall c, In c l -> in_tolerance d c = false).
    { intros c Hc. destruct (in_tolerance d c) eqn:T; [|reflexivity].
      rewrite <- E. symmetry. apply existsb_exists. now exists c. }
    assert (Hout' : forall c, In c l' -> in_tolerance d c = false).
    { intros c Hc. apply Hout.
      now apply (Permutation_in c (Permutation_sym P)). }
    assert (Hne : l <> []) by (intros ->; discriminate Hr).
    assert (Hne' : l' <> []).
    { intros ->. apply Permutation_sym, Permutation_nil in P. contradiction. }
    destruct (out_of_band_least l d Hne Hout Hnum)
      as (r0 & Hr0 & Hin & Hmin).
    rewrite Hr in Hr0. injection Hr0 as <-.
    destruct (out_of_band_least l' d Hne' Hout' Hnum')
      as (r' & Hr' & Hin' & Hmin').
    exists r'. split; [exact Hr'|].
    assert (Hok : forall c, In c l ->
                    is_nan (distDiff d c) = false
                    /\ is_nan (elevationGainM c) = false).
    { intros c Hc. destruct (Hnum c Hc). now split. }
    destruct (keys_le_antisym (distDiff d) elevationGainM r' r) as [H1 H2].
    + apply Hok. now apply (Permutation_in r' (Permutation_sym P)).
    + now apply Hok.
    + apply Hmin'. now apply (Permutation_in r P).
    + apply Hmin. now apply (Permutation_in r' (Permutation_sym P)).
    + now split.
Qed.

Lemma selection_keys_independent_of_order_witness :
  exists r',
    select_route [cand_B; cand_A; cand_C] 5 = Some r'
    /\ (elevationGainM r' =? elevationGainM cand_B) = true
    /\ (distDiff 5 r' =? distDiff 5 cand_B) = true.
Proof.
  apply (selection_keys_independent_of_order
           [cand_C; cand_A; cand_B] [cand_B; cand_A; cand_C] 5 cand_B).
  - apply (Permutation_rev [cand_C; cand_A; cand_B]).
  - intros c [<-|[<-|[<-|[]]]]; split; reflexivity.
  - reflexivity.
Defined.

End Further64.
